(** * Snooflake: a shallow embedding of [snooflake.go] and its properties

    The Go package implements a Snowflake-style identifier generator.  An
    identifier packs an elapsed time, a sequence number and a machine id
    into one unsigned 64-bit word.  This file embeds the package's
    functions as Rocq functions over [Z], with Go's fixed-width arithmetic
    written out, and proves properties of the codec, of the allocation
    state machine, of construction and of the machine-id discovery. *)

From Stdlib Require Import ZArith Lia List Sorted.
From stdpp Require Import gmap strings list fin_maps.

Local Open Scope Z_scope.

(** ** Go's fixed-width integers

    Values of Go's [int64], [uint64] and [uint16] are carried as [Z]; the
    range predicates say when a [Z] is such a value and the [wrap]
    functions are the reductions Go applies after arithmetic and
    conversions. *)
Module GoInt.

Definition maxInt64 : Z := 2 ^ 63 - 1.
Definition minInt64 : Z := - 2 ^ 63.

Definition is_int64 (z : Z) : Prop := minInt64 <= z <= maxInt64.
Definition is_uint64 (z : Z) : Prop := 0 <= z < 2 ^ 64.
Definition is_uint16 (z : Z) : Prop := 0 <= z < 2 ^ 16.
Definition is_byte (z : Z) : Prop := 0 <= z < 2 ^ 8.

(** Two's complement reduction to [int64]. *)
Definition wrap_int64 (z : Z) : Z := (z + 2 ^ 63) mod 2 ^ 64 - 2 ^ 63.
(** Reduction to [uint64]; also the conversion [uint64(x)] of an [int64]. *)
Definition wrap_uint64 (z : Z) : Z := z mod 2 ^ 64.
Definition wrap_uint16 (z : Z) : Z := z mod 2 ^ 16.

(** [x << n] on [uint64]. *)
Definition shl_uint64 (x n : Z) : Z := wrap_uint64 (Z.shiftl x n).
(** [x << n] on [uint16]. *)
Definition shl_uint16 (x n : Z) : Z := wrap_uint16 (Z.shiftl x n).

End GoInt.
Import GoInt.

(** ** Instants and durations

    Modelled from Go's standard library ([time]): an instant is carried
    as its number of nanoseconds since the Unix epoch.  [time.Time] spans
    more than an [int64] of nanoseconds, so an instant is an unbounded
    [Z] and [UnixNano] reduces it to [int64] as the library's arithmetic
    does. *)
Module GoTime.

Definition Time : Type := Z.

(** [t.After(u)] *)
Definition After (t u : Time) : bool := u <? t.

(** The zero [Time]: January 1, year 1, 00:00:00 UTC. *)
Definition zeroTime : Time := -62135596800 * 10 ^ 9.
Definition IsZero (t : Time) : bool := t =? zeroTime.

(** [t.UTC().UnixNano()]; the location does not change the instant. *)
Definition UnixNano (t : Time) : Z := wrap_int64 t.

(** Days between 1970-01-01 and a date of the proleptic Gregorian
    calendar. *)
Definition daysFromCivil (y m d : Z) : Z :=
  let y' := if m <=? 2 then y - 1 else y in
  let era := y' / 400 in
  let yoe := y' - era * 400 in
  let mp := (m + 9) mod 12 in
  let doy := (153 * mp + 2) / 5 + d - 1 in
  let doe := yoe * 365 + yoe / 4 - yoe / 100 + doy in
  era * 146097 + doe - 719468.

(** [time.Date(y, m, d, 0, 0, 0, 0, time.UTC)] *)
Definition Date (y m d : Z) : Time := daysFromCivil y m d * 86400 * 10 ^ 9.

(** [time.Duration] constants, in nanoseconds. *)
Definition Nanosecond : Z := 1.
Definition Millisecond : Z := 10 ^ 6.

Definition addDuration (t : Time) (d : Z) : Time := t + d.

End GoTime.
Import GoTime.

(** ** Errors

    Go's [error] values are carried by their message; [None] is [nil]. *)
Definition error : Type := string.

Definition errOverTimeLimit : error := "over the time limit".
Definition errNoPrivateIP : error := "no private ip address".

(** ** Bit lengths of the identifier parts *)
Definition BitLenTime : Z := 39.
Definition BitLenSequence : Z := 8.
Definition BitLenMachineID : Z := 63 - BitLenTime - BitLenSequence.

(** ** The generator state

    The mutex of the Go struct guards every access to the other fields;
    the embedding is the sequential semantics under that lock, so the
    mutex itself carries no data and is left out. *)
Record Snooflake : Type := mkSnooflake {
  startTime : Z;    (* int64 *)
  elapsedTime : Z;  (* int64 *)
  sequence : Z;     (* uint16 *)
  machineID : Z     (* uint16 *)
}.

Definition wf_Snooflake (sf : Snooflake) : Prop :=
  is_int64 (startTime sf) /\ is_int64 (elapsedTime sf) /\
  is_uint16 (sequence sf) /\ is_uint16 (machineID sf).

Definition set_elapsedTime (e : Z) (sf : Snooflake) : Snooflake :=
  mkSnooflake (startTime sf) e (sequence sf) (machineID sf).
Definition set_sequence (s : Z) (sf : Snooflake) : Snooflake :=
  mkSnooflake (startTime sf) (elapsedTime sf) s (machineID sf).

(** ** Codec *)

(** [func (sf *Snooflake) toID() (uint64, error)] *)
Definition toID (sf : Snooflake) : Z * option error :=
  if 2 ^ BitLenTime <=? elapsedTime sf then (0, Some errOverTimeLimit)
  else
    (Z.lor
       (Z.lor
          (shl_uint64 (wrap_uint64 (elapsedTime sf))
                      (BitLenSequence + BitLenMachineID))
          (shl_uint64 (sequence sf) BitLenMachineID))
       (machineID sf),
     None).

(** The packing of [toID] alone, on the three fields. *)
Definition encode (t s m : Z) : Z :=
  Z.lor (Z.lor (shl_uint64 (wrap_uint64 t) (BitLenSequence + BitLenMachineID))
               (shl_uint64 s BitLenMachineID))
        m.

(** [func Decompose(id uint64) map[string]uint64] *)
Definition Decompose (id : Z) : gmap string Z :=
  let maskSequence := wrap_uint64 (Z.shiftl (Z.shiftl 1 BitLenSequence - 1) BitLenMachineID) in
  let maskMachineID := wrap_uint64 (Z.shiftl 1 BitLenMachineID - 1) in
  let msb := Z.shiftr id 63 in
  let time := Z.shiftr id (BitLenSequence + BitLenMachineID) in
  let sequence := Z.shiftr (Z.land id maskSequence) BitLenMachineID in
  let machineID := Z.land id maskMachineID in
  {[ "id" := id;
     "msb" := msb;
     "time" := time;
     "sequence" := sequence;
     "machine-id" := machineID ]}.

(** The bit field [lo..hi] (inclusive, bit 0 least significant) of a word. *)
Definition bits (lo hi : Z) (x : Z) : Z := (x / 2 ^ lo) mod 2 ^ (hi - lo + 1).

(** ** Time in Snooflake units *)

Definition snooflakeTimeUnit : Z := 10 ^ 6. (* 1 msec *)

(** [func toSnooflakeTime(t time.Time) int64]; Go's [/] on integers
    truncates toward zero. *)
Definition toSnooflakeTime (t : Time) : Z :=
  Z.quot (UnixNano t) snooflakeTimeUnit.

(** [func currentElapsedTime(startTime int64) int64], at the instant [now]
    read from the clock. *)
Definition currentElapsedTime (now : Time) (startTime : Z) : Z :=
  wrap_int64 (toSnooflakeTime now - startTime).

(** [func sleepTime(overtime int64) time.Duration], at the instant [now]
    read from the clock; Go's [%] is the remainder of the truncated
    division. *)
Definition sleepTime (now : Time) (overtime : Z) : Z :=
  wrap_int64
    (wrap_int64 (wrap_int64 (overtime * 1) * Millisecond)
     - wrap_int64 (Z.rem (UnixNano now) snooflakeTimeUnit * Nanosecond)).

(** ** Allocation *)

Definition maskSequence : Z := wrap_uint16 (Z.shiftl 1 BitLenSequence - 1).

(** The state update of [nextID] for a reading [current] of
    [currentElapsedTime(sf.startTime)].  The second component is the
    [overtime] for which the call sleeps, when it does; sleeping changes
    neither the state nor the value returned, only later clock
    readings. *)
Definition advance (current : Z) (sf : Snooflake) : Snooflake * option Z :=
  if elapsedTime sf <? current then
    (set_sequence 0 (set_elapsedTime current sf), None)
  else
    let sf := set_sequence (Z.land (wrap_uint16 (sequence sf + 1)) maskSequence) sf in
    if sequence sf =? 0 then
      let sf := set_elapsedTime (wrap_int64 (elapsedTime sf + 1)) sf in
      let overtime := wrap_int64 (elapsedTime sf - current) in
      (sf, Some overtime)
    else (sf, None).

(** [func (sf *Snooflake) nextID() (uint64, error)] once the clock has
    been read: the new state and the pair returned. *)
Definition nextID_from (current : Z) (sf : Snooflake) : Snooflake * (Z * option error) :=
  let sf' := fst (advance current sf) in (sf', toID sf').

(** [nextID] at the instant [now]. *)
Definition nextID (now : Time) (sf : Snooflake) : Snooflake * (Z * option error) :=
  nextID_from (currentElapsedTime now (startTime sf)) sf.

(** [func (sf *Snooflake) NextID() (uint64, error)]: [nextID] under the
    lock. *)
Definition NextID (now : Time) (sf : Snooflake) : Snooflake * (Z * option error) :=
  nextID now sf.

(** Consecutive calls of [nextID], one per clock reading, with the pair
    each call returns. *)
Fixpoint run (currents : list Z) (sf : Snooflake) : Snooflake * list (Z * option error) :=
  match currents with
  | [] => (sf, [])
  | c :: cs =>
      let '(sf1, r) := nextID_from c sf in
      let '(sf2, rs) := run cs sf1 in
      (sf2, r :: rs)
  end.

(** Consecutive calls of [NextID], one per instant read from the
    clock. *)
Fixpoint run_at (nows : list Time) (sf : Snooflake) : Snooflake * list (Z * option error) :=
  match nows with
  | [] => (sf, [])
  | now :: rest =>
      let '(sf1, r) := NextID now sf in
      let '(sf2, rs) := run_at rest sf1 in
      (sf2, r :: rs)
  end.

(** The loop of [NextIDs]: [i] is the loop counter, [remaining] is
    [num - i], and [clock j] is the reading of [currentElapsedTime] made
    by the [j]-th call of [nextID]. *)
Fixpoint NextIDs_loop (clock : nat -> Z) (remaining : nat) (i : nat)
    (ids : list Z) (sf : Snooflake) : Snooflake * (list Z * option error) :=
  match remaining with
  | O => (sf, (ids, None))
  | S remaining' =>
      let '(sf', (id, err)) := nextID_from (clock i) sf in
      match err with
      | Some e => (sf', (ids, Some e))
      | None => NextIDs_loop clock remaining' (S i) (<[i := id]> ids) sf'
      end
  end.

(** Modelled from Go's runtime ([makeslice]): [make([]T, len)] panics
    when [len] is negative, or when [len] elements of [elemSize] bytes
    are more than [maxAlloc], the largest allocation of the platform
    (2^48 bytes on 64-bit Linux).  [maxAlloc] is below 2^64, so an
    overflow of the size computation is a size above [maxAlloc].  An
    accepted length is taken to be allocated: running out of memory is
    not modelled. *)
Module GoRuntime.

Definition makeslice_ok (maxAlloc elemSize len : Z) : bool :=
  (0 <=? len) && (elemSize * len <=? maxAlloc).

Definition maxAlloc_linux64 : Z := 2 ^ 48.

End GoRuntime.
Import GoRuntime.

(** [func (sf *Snooflake) NextIDs(num int) ([]uint64, error)], on a
    platform whose largest allocation is [maxAlloc] bytes.  When [make]
    panics there is no result: [None].  A [uint64] takes 8 bytes. *)
Definition NextIDs (maxAlloc : Z) (clock : nat -> Z) (num : Z) (sf : Snooflake)
    : option (Snooflake * (list Z * option error)) :=
  if makeslice_ok maxAlloc 8 num then
    let ids := replicate (Z.to_nat num) 0 in
    Some (NextIDs_loop clock (Z.to_nat num) 0 ids sf)
  else None.

(** ** Network addresses

    Modelled from Go's standard library ([net]): an [IP] is a byte slice
    (the nil slice is the empty list), and the addresses of the host's
    interfaces are [*IPNet] values or other implementations of [Addr]. *)
Module GoNet.

Definition IP : Type := list Z.

Inductive Addr : Type :=
| IPNet (ip : IP) (mask : list Z)
| OtherAddr (ip : IP).

(** [ip[i]].  All indexing done by this package is on a result of
    [To4] that is not nil, which has four bytes (see [To4_length]), so
    the default is never returned. *)
Definition byteAt (ip : IP) (i : nat) : Z :=
  match ip !! i with
  | Some b => b
  | None => 0
  end.

Definition IPv6loopback : IP := [0;0;0;0;0;0;0;0;0;0;0;0;0;0;0;1].

(** [func (ip IP) To4() IP] *)
Definition To4 (ip : IP) : IP :=
  if decide (length ip = 4%nat) then ip
  else if decide (length ip = 16%nat) then
    if forallb (Z.eqb 0) (take 10 ip) && (byteAt ip 10 =? 255) && (byteAt ip 11 =? 255)
    then drop 12 ip else []
  else [].

(** [func (ip IP) IsLoopback() bool] *)
Definition IsLoopback (ip : IP) : bool :=
  match To4 ip with
  | [] => bool_decide (ip = IPv6loopback)
  | ip4 => byteAt ip4 0 =? 127
  end.

End GoNet.
Import GoNet.

(** ** Machine-id discovery *)

(** [func isPrivateIPv4(ip net.IP) bool] *)
Definition isPrivateIPv4 (ip : IP) : bool :=
  negb (bool_decide (ip = [])) &&
  ((byteAt ip 0 =? 10)
   || (byteAt ip 0 =? 172) && ((16 <=? byteAt ip 1) && (byteAt ip 1 <? 32))
   || (byteAt ip 0 =? 192) && (byteAt ip 1 =? 168)).

(** The loop of [privateIPv4] over the addresses of the interfaces. *)
Fixpoint privateIPv4_loop (addrs : list Addr) : IP * option error :=
  match addrs with
  | [] => ([], Some errNoPrivateIP)
  | a :: rest =>
      match a with
      | IPNet ip0 _ =>
          if IsLoopback ip0 then privateIPv4_loop rest
          else
            let ip := To4 ip0 in
            if isPrivateIPv4 ip then (ip, None) else privateIPv4_loop rest
      | OtherAddr _ => privateIPv4_loop rest
      end
  end.

(** [func privateIPv4() (net.IP, error)], on the pair that
    [net.InterfaceAddrs()] returns. *)
Definition privateIPv4 (ifaddrs : list Addr * option error) : IP * option error :=
  match snd ifaddrs with
  | Some err => ([], Some err)
  | None => privateIPv4_loop (fst ifaddrs)
  end.

(** [func lower16BitPrivateIP() (uint16, error)] *)
Definition lower16BitPrivateIP (ifaddrs : list Addr * option error) : Z * option error :=
  match privateIPv4 ifaddrs with
  | (_, Some err) => (0, Some err)
  | (ip, None) => (wrap_uint16 (shl_uint16 (byteAt ip 2) 8 + byteAt ip 3), None)
  end.

(** ** Construction *)

(** The functions of [Settings] are called at most once by
    [NewSnooflake]: [MachineID] is carried by the pair its call returns,
    and a nil function is [None]. *)
Record Settings : Type := mkSettings {
  StartTime : Time;
  MachineID : option (Z * option error);
  CheckMachineID : option (Z -> bool)
}.

Definition defaultStartTime : Time := Date 2014 9 1.

(** [func NewSnooflake(st Settings) *Snooflake], at the instant [now]
    read from the clock and with [ifaddrs] the answer of
    [net.InterfaceAddrs()]; [None] is the nil pointer. *)
Definition NewSnooflake (now : Time) (ifaddrs : list Addr * option error)
    (st : Settings) : option Snooflake :=
  let seq0 := wrap_uint16 (Z.shiftl 1 BitLenSequence - 1) in
  if After (StartTime st) now then None
  else
    let start :=
      if IsZero (StartTime st) then toSnooflakeTime defaultStartTime
      else toSnooflakeTime (StartTime st) in
    let '(mid, err) :=
      match MachineID st with
      | None => lower16BitPrivateIP ifaddrs
      | Some r => r
      end in
    let rejected :=
      match CheckMachineID st with
      | Some check => negb (check mid)
      | None => false
      end in
    match err with
    | Some _ => None
    | None => if rejected then None else Some (mkSnooflake start 0 seq0 mid)
    end.

(** ** Specification-side notions *)

(** A list of identifiers is strictly increasing. *)
Definition strictly_increasing (ids : list Z) : Prop := StronglySorted Z.lt ids.

(** The call succeeded: its error is nil. *)
Definition succeeded (r : Z * option error) : Prop := snd r = None.
(** The call failed with the time-overflow error. *)
Definition overflowed (r : Z * option error) : Prop := snd r = Some errOverTimeLimit.

(** The 32-bit value of the address [a.b.c.d]. *)
Definition ipv4_value (a b c d : Z) : Z := a * 2 ^ 24 + b * 2 ^ 16 + c * 2 ^ 8 + d.

(** Membership of a 32-bit address in the block [base/len]. *)
Definition inCIDR (v base len : Z) : Prop := v / 2 ^ (32 - len) = base / 2 ^ (32 - len).

Definition private_range (v : Z) : Prop :=
  inCIDR v (ipv4_value 10 0 0 0) 8 \/
  inCIDR v (ipv4_value 172 16 0 0) 12 \/
  inCIDR v (ipv4_value 192 168 0 0) 16.

(** The IPv4 addresses among the interface addresses, in order. *)
Definition ipv4_addresses (addrs : list Addr) : list IP :=
  omap (fun a => match a with
                 | IPNet ip _ => match To4 ip with [] => None | ip4 => Some ip4 end
                 | OtherAddr _ => None
                 end) addrs.

(** The first of them that is private. *)
Definition first_private (addrs : list Addr) : option IP :=
  head (filter (fun ip => isPrivateIPv4 ip = true) (ipv4_addresses addrs)).

(** The readings made by [n] consecutive calls, the first of which is
    call number [i]. *)
Definition readings (clock : nat -> Z) (i n : nat) : list Z := map clock (seq i n).

(** The identifier as a number: the three fields side by side. *)
Definition packed (sf : Snooflake) : Z :=
  elapsedTime sf * 2 ^ 24 + sequence sf * 2 ^ 16 + machineID sf.

(** The fields of the state fit the identifier layout. *)
Definition fits_layout (sf : Snooflake) : Prop :=
  0 <= elapsedTime sf < 2 ^ 39 /\ 0 <= sequence sf < 2 ^ 8 /\
  is_uint16 (machineID sf).

(** The settings are well typed: the machine id a provider returns is a
    uint16. *)
Definition wf_Settings (st : Settings) : Prop :=
  match MachineID st with
  | Some r => is_uint16 (fst r)
  | None => True
  end.

(** The pair that the machine-id provider in use returns. *)
Definition resolved_machineID (ifaddrs : list Addr * option error) (st : Settings)
    : Z * option error :=
  match MachineID st with
  | None => lower16BitPrivateIP ifaddrs
  | Some r => r
  end.

(** Every element of the address is a byte. *)
Definition wf_Addr (a : Addr) : Prop :=
  match a with
  | IPNet ip _ => Forall is_byte ip
  | OtherAddr ip => Forall is_byte ip
  end.

(** * Properties *)

(** Linear arithmetic with quotients and remainders by constants. *)
Ltac div_lia := Z.div_mod_to_equations; lia.
Ltac quot_lia := Z.quot_rem_to_equations; lia.

(** The powers of two of the layout, as literals. *)
Ltac pow_literals :=
  change (2 ^ 8) with 256 in *;
  change (2 ^ 16) with 65536 in *;
  change (2 ^ 24) with 16777216 in *;
  change (2 ^ 39) with 549755813888 in *;
  change (2 ^ 63) with 9223372036854775808 in *;
  change (2 ^ 64) with 18446744073709551616 in *.

(** ** Fixed-width arithmetic *)

Lemma wrap_int64_id z : is_int64 z -> wrap_int64 z = z.
Proof.
  unfold is_int64, wrap_int64, minInt64, maxInt64. intros H.
  rewrite Z.mod_small; lia.
Qed.

Lemma wrap_int64_range z : is_int64 (wrap_int64 z).
Proof.
  unfold is_int64, wrap_int64, minInt64, maxInt64.
  pose proof (Z.mod_pos_bound (z + 2 ^ 63) (2 ^ 64) ltac:(lia)). lia.
Qed.

Lemma wrap_uint64_id z : is_uint64 z -> wrap_uint64 z = z.
Proof. unfold is_uint64, wrap_uint64. intros H. apply Z.mod_small; lia. Qed.

Lemma wrap_uint16_id z : is_uint16 z -> wrap_uint16 z = z.
Proof. unfold is_uint16, wrap_uint16. intros H. apply Z.mod_small; lia. Qed.

Lemma land_mul_pow2_small hi lo n :
  0 <= n -> 0 <= lo < 2 ^ n -> Z.land (hi * 2 ^ n) lo = 0.
Proof.
  intros Hn Hlo. apply Z.bits_inj'. intros k Hk.
  rewrite Z.land_spec, Z.bits_0.
  destruct (Z.lt_ge_cases k n) as [Hlt | Hge].
  - rewrite Z.mul_pow2_bits_low by lia. reflexivity.
  - rewrite <- (Z.mod_small lo (2 ^ n)) by lia.
    rewrite Z.mod_pow2_bits_high by lia. apply andb_false_r.
Qed.

Lemma lor_mul_pow2_add hi lo n :
  0 <= n -> 0 <= lo < 2 ^ n -> Z.lor (hi * 2 ^ n) lo = hi * 2 ^ n + lo.
Proof.
  intros Hn Hlo. pose proof (Z.add_lor_land (hi * 2 ^ n) lo) as H.
  rewrite land_mul_pow2_small in H by assumption. lia.
Qed.

(** ** Codec *)

Lemma encode_sum t s m :
  0 <= t < 2 ^ 39 -> 0 <= s < 2 ^ 8 -> 0 <= m < 2 ^ 16 ->
  encode t s m = t * 2 ^ 24 + s * 2 ^ 16 + m.
Proof.
  intros Ht Hs Hm. unfold encode, shl_uint64, wrap_uint64.
  change (BitLenSequence + BitLenMachineID) with 24.
  change BitLenMachineID with 16.
  rewrite !Z.shiftl_mul_pow2 by lia.
  rewrite (Z.mod_small t) by lia.
  rewrite (Z.mod_small (t * 2 ^ 24)) by lia.
  rewrite (Z.mod_small (s * 2 ^ 16)) by lia.
  replace (t * 2 ^ 24) with ((t * 2 ^ 8) * 2 ^ 16) by lia.
  rewrite <- Z.mul_add_distr_r.
  replace (Z.lor (t * 2 ^ 8 * 2 ^ 16) (s * 2 ^ 16)) with ((t * 2 ^ 8 + s) * 2 ^ 16).
  - rewrite lor_mul_pow2_add by lia. reflexivity.
  - rewrite Z.mul_add_distr_r.
    replace (t * 2 ^ 8 * 2 ^ 16) with (t * 2 ^ 24) by lia.
    rewrite lor_mul_pow2_add by lia. reflexivity.
Qed.

Lemma toID_encode sf :
  toID sf =
  if 2 ^ 39 <=? elapsedTime sf then (0, Some errOverTimeLimit)
  else (encode (elapsedTime sf) (sequence sf) (machineID sf), None).
Proof. reflexivity. Qed.

(** Every field of [Decompose] as a quotient and a remainder. *)
Lemma Decompose_arith id :
  Decompose id =
  {[ "id" := id;
     "msb" := id / 2 ^ 63;
     "time" := id / 2 ^ 24;
     "sequence" := (id / 2 ^ 16) mod 2 ^ 8;
     "machine-id" := id mod 2 ^ 16 ]}.
Proof.
  unfold Decompose.
  change (BitLenSequence + BitLenMachineID) with 24.
  change BitLenMachineID with 16.
  change (wrap_uint64 (Z.shiftl (Z.shiftl 1 BitLenSequence - 1) 16))
    with (Z.shiftl (Z.ones 8) 16).
  change (wrap_uint64 (Z.shiftl 1 16 - 1)) with (Z.ones 16).
  rewrite Z.shiftr_land, Z.shiftr_shiftl_l by lia.
  change (Z.shiftl (Z.ones 8) (16 - 16)) with (Z.ones 8).
  rewrite !Z.land_ones, !Z.shiftr_div_pow2 by lia.
  reflexivity.
Qed.

Lemma encode_plain t s m :
  0 <= t < 2 ^ 39 -> 0 <= s < 2 ^ 8 -> 0 <= m < 2 ^ 16 ->
  encode t s m = Z.lor (Z.lor (Z.shiftl t 24) (Z.shiftl s 16)) m.
Proof.
  intros Ht Hs Hm. unfold encode, shl_uint64, wrap_uint64.
  change (BitLenSequence + BitLenMachineID) with 24.
  change BitLenMachineID with 16.
  rewrite !Z.shiftl_mul_pow2 by lia.
  rewrite (Z.mod_small t) by lia.
  rewrite (Z.mod_small (t * 2 ^ 24)) by lia.
  rewrite (Z.mod_small (s * 2 ^ 16)) by lia.
  reflexivity.
Qed.

Lemma Decompose_encode t s m :
  0 <= t < 2 ^ 39 -> 0 <= s < 2 ^ 8 -> 0 <= m < 2 ^ 16 ->
  Decompose (encode t s m) =
  {[ "id" := encode t s m; "msb" := 0; "time" := t; "sequence" := s; "machine-id" := m ]}.
Proof.
  intros Ht Hs Hm. rewrite Decompose_arith.
  pose proof (encode_sum t s m Ht Hs Hm) as E.
  change (2 ^ 39) with 549755813888 in *. change (2 ^ 8) with 256 in *.
  change (2 ^ 16) with 65536 in *. change (2 ^ 24) with 16777216 in *.
  change (2 ^ 63) with 9223372036854775808.
  assert (H63 : encode t s m / 9223372036854775808 = 0) by div_lia.
  assert (H24 : encode t s m / 16777216 = t) by div_lia.
  assert (H16 : (encode t s m / 65536) mod 256 = s) by div_lia.
  assert (H0 : encode t s m mod 65536 = m) by div_lia.
  rewrite H63, H24, H16, H0. reflexivity.
Qed.

(** C1: for t < 2^39, s < 2^8 and m < 2^16, [toID] returns the word
    [t << 24 | s << 16 | m] with no error, that word is below 2^63, and
    [Decompose] maps it to id = the word, msb = 0, time = t,
    sequence = s and machine-id = m. *)
Theorem Decompose_toID_roundtrip (st t s m : Z) :
  0 <= t < 2 ^ 39 -> 0 <= s < 2 ^ 8 -> 0 <= m < 2 ^ 16 ->
  let id := Z.lor (Z.lor (Z.shiftl t 24) (Z.shiftl s 16)) m in
  toID (mkSnooflake st t s m) = (id, None) /\
  0 <= id < 2 ^ 63 /\
  Decompose id =
  {[ "id" := id; "msb" := 0; "time" := t; "sequence" := s; "machine-id" := m ]}.
Proof.
  intros Ht Hs Hm id. subst id.
  rewrite <- (encode_plain t s m) by assumption.
  split; [| split].
  - rewrite toID_encode. cbn [elapsedTime sequence machineID].
    destruct (Z.leb_spec (2 ^ 39) t); [lia | reflexivity].
  - rewrite encode_sum by assumption.
    change (2 ^ 39) with 549755813888 in *. change (2 ^ 8) with 256 in *.
    change (2 ^ 16) with 65536 in *. change (2 ^ 24) with 16777216.
    change (2 ^ 63) with 9223372036854775808. lia.
  - apply Decompose_encode; assumption.
Qed.

Lemma Decompose_toID_roundtrip_witness :
  toID (mkSnooflake 0 5 3 258) = (83886080 + 196608 + 258, None) /\
  Decompose 84082946 !! "sequence" = Some 3.
Proof.
  destruct (Decompose_toID_roundtrip 0 5 3 258) as (H1 & _ & H3);
    [lia | lia | lia |].
  split; [exact H1 |].
  change (Z.lor (Z.lor (Z.shiftl 5 24) (Z.shiftl 3 16)) 258) with 84082946 in H3.
  rewrite H3. reflexivity.
Defined.

Lemma Decompose_dom id :
  dom (Decompose id) = ({[ "id"; "msb"; "time"; "sequence"; "machine-id" ]} : gset string).
Proof.
  unfold Decompose. rewrite !dom_insert_L, dom_singleton_L. set_solver.
Qed.

Lemma Decompose_lookup id :
  Decompose id !! "id" = Some id /\
  Decompose id !! "msb" = Some (id / 2 ^ 63) /\
  Decompose id !! "time" = Some (id / 2 ^ 24) /\
  Decompose id !! "sequence" = Some ((id / 2 ^ 16) mod 2 ^ 8) /\
  Decompose id !! "machine-id" = Some (id mod 2 ^ 16).
Proof. rewrite Decompose_arith. repeat split; by simplify_map_eq. Qed.

(** C8, as stated, fails at the maximum word: its time field is
    2^40 - 1, while bits 24..62 of the word are 2^39 - 1. *)
Lemma Decompose_time_includes_msb :
  Decompose (2 ^ 64 - 1) !! "time" = Some (2 ^ 40 - 1) /\
  bits 24 62 (2 ^ 64 - 1) = 2 ^ 39 - 1 /\
  Decompose (2 ^ 64 - 1) !! "time" <> Some (bits 24 62 (2 ^ 64 - 1)).
Proof.
  destruct (Decompose_lookup (2 ^ 64 - 1)) as (_ & _ & Ht & _).
  rewrite Ht. repeat split; [vm_compute; congruence].
Qed.

(** C8, amended: [Decompose] is a total function; on every uint64 word
    its result has exactly the keys id, msb, time, sequence and
    machine-id, where id is the word, msb is bit 63, time is the word
    shifted right by 24, that is bits 24..63 (bit 63 included), sequence
    is bits 16..23 and machine-id is bits 0..15.  When bit 63 is clear
    the time field is bits 24..62. *)
Theorem Decompose_total_fields (id : Z) :
  is_uint64 id ->
  dom (Decompose id) = ({[ "id"; "msb"; "time"; "sequence"; "machine-id" ]} : gset string) /\
  Decompose id !! "id" = Some id /\
  Decompose id !! "msb" = Some (bits 63 63 id) /\
  Decompose id !! "time" = Some (bits 24 63 id) /\
  Decompose id !! "sequence" = Some (bits 16 23 id) /\
  Decompose id !! "machine-id" = Some (bits 0 15 id) /\
  (id < 2 ^ 63 -> Decompose id !! "time" = Some (bits 24 62 id)).
Proof.
  unfold is_uint64. intros Hid.
  destruct (Decompose_lookup id) as (H1 & H2 & H3 & H4 & H5).
  split; [apply Decompose_dom |].
  rewrite H1, H2, H3, H4, H5. unfold bits.
  change (63 - 63 + 1) with 1. change (63 - 24 + 1) with 40.
  change (23 - 16 + 1) with 8. change (15 - 0 + 1) with 16.
  change (62 - 24 + 1) with 39.
  change (2 ^ 0) with 1. change (2 ^ 1) with 2.
  change (2 ^ 8) with 256. change (2 ^ 16) with 65536.
  change (2 ^ 24) with 16777216. change (2 ^ 39) with 549755813888.
  change (2 ^ 40) with 1099511627776.
  change (2 ^ 63) with 9223372036854775808.
  change (2 ^ 64) with 18446744073709551616 in Hid.
  repeat split; try intros Hlt; f_equal; div_lia.
Qed.

Lemma Decompose_total_fields_witness :
  Decompose (2 ^ 64 - 1) !! "msb" = Some 1 /\
  Decompose 0 !! "machine-id" = Some 0.
Proof.
  split.
  - destruct (Decompose_total_fields (2 ^ 64 - 1)) as (_ & _ & H & _).
    + unfold is_uint64. lia.
    + exact H.
  - destruct (Decompose_total_fields 0) as (_ & _ & _ & _ & _ & H & _).
    + unfold is_uint64. lia.
    + exact H.
Defined.

(** ** The state update of the allocation algorithm *)

Lemma maskSequence_ones : maskSequence = Z.ones 8.
Proof. reflexivity. Qed.

Lemma next_sequence_mod s :
  Z.land (wrap_uint16 (s + 1)) maskSequence = (s + 1) mod 2 ^ 8.
Proof.
  rewrite maskSequence_ones, Z.land_ones by lia. unfold wrap_uint16.
  change (2 ^ 16) with 65536. change (2 ^ 8) with 256. div_lia.
Qed.

Lemma next_sequence_range s : 0 <= Z.land (wrap_uint16 (s + 1)) maskSequence < 2 ^ 8.
Proof. rewrite next_sequence_mod. apply Z.mod_pos_bound. lia. Qed.

Lemma next_sequence_changes s : Z.land (wrap_uint16 (s + 1)) maskSequence <> s.
Proof.
  rewrite next_sequence_mod. change (2 ^ 8) with 256. div_lia.
Qed.

(** The three cases of [advance], one equation each. *)
Lemma advance_new_unit current sf :
  elapsedTime sf < current ->
  advance current sf =
  (mkSnooflake (startTime sf) current 0 (machineID sf), None).
Proof.
  intros H. unfold advance.
  destruct (Z.ltb_spec (elapsedTime sf) current); [reflexivity | lia].
Qed.

Lemma advance_same_unit current sf :
  current <= elapsedTime sf ->
  (sequence sf + 1) mod 2 ^ 8 <> 0 ->
  advance current sf =
  (mkSnooflake (startTime sf) (elapsedTime sf) ((sequence sf + 1) mod 2 ^ 8)
     (machineID sf), None).
Proof.
  intros H Hs. unfold advance.
  destruct (Z.ltb_spec (elapsedTime sf) current); [lia |].
  cbn [sequence set_sequence]. rewrite next_sequence_mod.
  destruct (Z.eqb_spec ((sequence sf + 1) mod 2 ^ 8) 0); [contradiction | reflexivity].
Qed.

Lemma advance_borrow_unit current sf :
  current <= elapsedTime sf ->
  (sequence sf + 1) mod 2 ^ 8 = 0 ->
  advance current sf =
  (mkSnooflake (startTime sf) (wrap_int64 (elapsedTime sf + 1)) 0 (machineID sf),
   Some (wrap_int64 (wrap_int64 (elapsedTime sf + 1) - current))).
Proof.
  intros H Hs. unfold advance.
  destruct (Z.ltb_spec (elapsedTime sf) current); [lia |].
  cbn [sequence set_sequence]. rewrite next_sequence_mod, Hs. reflexivity.
Qed.

(** Case analysis on a call of [advance]. *)
Ltac advance_cases current sf :=
  let Hlt := fresh "Hlt" in
  let Hge := fresh "Hge" in
  let Hs := fresh "Hseq" in
  destruct (Z.lt_ge_cases (elapsedTime sf) current) as [Hlt | Hge];
  [ rewrite (advance_new_unit current sf Hlt)
  | destruct (Z.eq_dec ((sequence sf + 1) mod 2 ^ 8) 0) as [Hs | Hs];
    [ rewrite (advance_borrow_unit current sf Hge Hs)
    | rewrite (advance_same_unit current sf Hge Hs) ] ];
  cbn [fst snd startTime elapsedTime sequence machineID].

(** C6: on a well-typed generator state and reading, when
    [elapsedTime < current] the update sets [elapsedTime] to [current]
    and [sequence] to 0; otherwise it sets [sequence] to
    [(sequence + 1) mod 2^8] and, exactly when that is 0, increments
    [elapsedTime] by one (Go's [++] on int64, which is [elapsedTime + 1]
    below the largest int64); [elapsedTime] is unchanged when the
    sequence does not wrap. *)
Theorem advance_state (current : Z) (sf : Snooflake) :
  wf_Snooflake sf -> is_int64 current ->
  let sf' := fst (nextID_from current sf) in
  startTime sf' = startTime sf /\ machineID sf' = machineID sf /\
  (elapsedTime sf < current ->
     elapsedTime sf' = current /\ sequence sf' = 0) /\
  (current <= elapsedTime sf ->
     sequence sf' = (sequence sf + 1) mod 2 ^ 8 /\
     (sequence sf' = 0 ->
        elapsedTime sf' = wrap_int64 (elapsedTime sf + 1) /\
        (elapsedTime sf < maxInt64 -> elapsedTime sf' = elapsedTime sf + 1)) /\
     (sequence sf' <> 0 -> elapsedTime sf' = elapsedTime sf)).
Proof.
  intros (_ & He & _ & _) Hc. unfold nextID_from. cbn [fst].
  advance_cases current sf; repeat split; try reflexivity; try lia.
  intros Hmax. apply wrap_int64_id.
  unfold is_int64, minInt64, maxInt64 in *. lia.
Qed.

Lemma advance_state_witness :
  sequence (fst (nextID_from 7 (mkSnooflake 0 7 255 1))) = 0 /\
  elapsedTime (fst (nextID_from 7 (mkSnooflake 0 7 255 1))) = 8.
Proof.
  assert (Hwf : wf_Snooflake (mkSnooflake 0 7 255 1)).
  { unfold wf_Snooflake, is_int64, is_uint16, minInt64, maxInt64. cbn. lia. }
  assert (Hc : is_int64 7) by (unfold is_int64, minInt64, maxInt64; lia).
  destruct (advance_state 7 (mkSnooflake 0 7 255 1) Hwf Hc)
    as (_ & _ & _ & Hge).
  destruct Hge as (Hs & H0 & _); [cbn; lia |].
  split; [exact Hs |].
  destruct (H0 Hs) as (_ & Hinc). apply Hinc. unfold maxInt64. cbn. lia.
Defined.

(** ** Failure of an allocation *)

Lemma toID_overflowed sf : overflowed (toID sf) <-> 2 ^ 39 <= elapsedTime sf.
Proof.
  rewrite toID_encode. unfold overflowed.
  destruct (Z.leb_spec (2 ^ 39) (elapsedTime sf)); cbn [snd]; split;
    intros; try lia; try discriminate; reflexivity.
Qed.

Lemma toID_succeeded sf : succeeded (toID sf) <-> elapsedTime sf < 2 ^ 39.
Proof.
  rewrite toID_encode. unfold succeeded.
  destruct (Z.leb_spec (2 ^ 39) (elapsedTime sf)); cbn [snd]; split;
    intros; try lia; try discriminate; reflexivity.
Qed.

Lemma succeeded_not_overflowed r : succeeded r -> ~ overflowed r.
Proof. unfold succeeded, overflowed. intros -> ?. discriminate. Qed.

Lemma advance_changes current sf :
  (elapsedTime (fst (advance current sf)), sequence (fst (advance current sf)))
  <> (elapsedTime sf, sequence sf).
Proof.
  unfold advance.
  destruct (Z.ltb_spec (elapsedTime sf) current) as [Hlt | Hge].
  - cbn. intros [=]. lia.
  - cbn [sequence set_sequence].
    pose proof (next_sequence_changes (sequence sf)) as Hne.
    destruct (Z.land (wrap_uint16 (sequence sf + 1)) maskSequence =? 0);
      cbn; intros [=]; contradiction.
Qed.

(** C10: when an allocation returns the time-overflow error, the state
    it leaves is the one computed by the update of the allocation
    algorithm, and that state differs from the one before the call in
    [elapsedTime] or in [sequence]: nothing is rolled back. *)
Theorem failure_keeps_update (current : Z) (sf : Snooflake) :
  overflowed (snd (nextID_from current sf)) ->
  let sf' := fst (nextID_from current sf) in
  sf' = fst (advance current sf) /\
  (elapsedTime sf', sequence sf') <> (elapsedTime sf, sequence sf) /\
  (elapsedTime sf < current -> elapsedTime sf' = current /\ sequence sf' = 0) /\
  (current <= elapsedTime sf -> sequence sf' = (sequence sf + 1) mod 2 ^ 8).
Proof.
  intros _. unfold nextID_from. cbn [fst].
  split; [reflexivity |]. split; [apply advance_changes |].
  advance_cases current sf; repeat split; try reflexivity; lia.
Qed.

Lemma failure_keeps_update_witness :
  snd (nextID_from (2 ^ 39) (mkSnooflake 0 12 4 1)) = (0, Some errOverTimeLimit) /\
  elapsedTime (fst (nextID_from (2 ^ 39) (mkSnooflake 0 12 4 1))) = 2 ^ 39 /\
  sequence (fst (nextID_from (2 ^ 39) (mkSnooflake 0 12 4 1))) = 0.
Proof.
  split; [reflexivity |].
  destruct (failure_keeps_update (2 ^ 39) (mkSnooflake 0 12 4 1))
    as (_ & _ & Hlt & _); [reflexivity |].
  apply Hlt. cbn. lia.
Defined.

(** Once [elapsedTime] is at least 2^39 it stays so, as long as the
    int64 counter is not driven to its largest value. *)
Lemma run_overflow_stays cs : forall sf B,
  2 ^ 39 <= elapsedTime sf -> elapsedTime sf <= B ->
  Forall (fun c => c <= B) cs ->
  B + Z.of_nat (length cs) <= maxInt64 ->
  Forall overflowed (snd (run cs sf)) /\ 2 ^ 39 <= elapsedTime (fst (run cs sf)).
Proof.
  induction cs as [| c cs IH]; intros sf B He HB Hcs Hlen.
  - cbn. split; [constructor | assumption].
  - inversion Hcs as [| ? ? Hc Hcs']; subst.
    cbn [run]. unfold nextID_from.
    destruct (run cs (fst (advance c sf))) as [sf2 rs] eqn:Hrun.
    cbn [snd fst length] in *.
    assert (Hstep : 2 ^ 39 <= elapsedTime (fst (advance c sf)) <= B + 1).
    { unfold maxInt64 in Hlen.
      advance_cases c sf; try lia.
      rewrite wrap_int64_id; [lia |].
      unfold is_int64, minInt64, maxInt64. lia. }
    destruct (IH (fst (advance c sf)) (B + 1)) as [Hall Hlast];
      try lia.
    + eapply Forall_impl; [exact Hcs' |]. cbn. intros; lia.
    + rewrite Hrun in Hall, Hlast. cbn [snd fst] in *.
      split; [| assumption].
      constructor; [| assumption]. apply toID_overflowed. lia.
Qed.

(** C5: an allocation fails with the time-overflow error exactly when
    [elapsedTime], after the update, is at least 2^39; and after such a
    failure every later allocation fails too, whatever the clock reads,
    for any number of calls that keeps the counter below the largest
    int64 ([B] bounds the state and the readings). *)
Theorem overflow_iff_and_permanent (current : Z) (sf : Snooflake) :
  (overflowed (snd (nextID_from current sf)) <->
   2 ^ 39 <= elapsedTime (fst (nextID_from current sf))) /\
  (succeeded (snd (nextID_from current sf)) <->
   elapsedTime (fst (nextID_from current sf)) < 2 ^ 39) /\
  (forall (B : Z) (cs : list Z),
     overflowed (snd (nextID_from current sf)) ->
     elapsedTime (fst (nextID_from current sf)) <= B ->
     Forall (fun c => c <= B) cs ->
     B + Z.of_nat (length cs) <= maxInt64 ->
     Forall overflowed (snd (run cs (fst (nextID_from current sf))))).
Proof.
  unfold nextID_from. cbn [fst snd].
  split; [apply toID_overflowed |]. split; [apply toID_succeeded |].
  intros B cs Hov HB Hcs Hlen.
  apply toID_overflowed in Hov.
  apply (run_overflow_stays cs _ B); assumption.
Qed.

Lemma overflow_iff_and_permanent_witness :
  Forall overflowed
    (snd (run [0; 2 ^ 39 + 5; 3] (fst (nextID_from (2 ^ 39) (mkSnooflake 0 0 255 1))))).
Proof.
  destruct (overflow_iff_and_permanent (2 ^ 39) (mkSnooflake 0 0 255 1))
    as (_ & _ & H).
  apply (H (2 ^ 40)).
  - reflexivity.
  - vm_compute. discriminate.
  - repeat constructor; vm_compute; discriminate.
  - vm_compute. discriminate.
Defined.

(** ** Monotonicity of the identifiers *)

Lemma toID_packed sf : fits_layout sf -> toID sf = (packed sf, None).
Proof.
  intros (He & Hs & Hm). unfold is_uint16 in Hm.
  rewrite toID_encode.
  destruct (Z.leb_spec (2 ^ 39) (elapsedTime sf)); [lia |].
  rewrite encode_sum by assumption. reflexivity.
Qed.

Lemma packed_range sf : fits_layout sf -> 0 <= packed sf < 2 ^ 63.
Proof.
  intros (He & Hs & Hm). unfold is_uint16 in Hm. unfold packed.
  change (2 ^ 39) with 549755813888 in *. change (2 ^ 8) with 256 in *.
  change (2 ^ 16) with 65536 in *. change (2 ^ 24) with 16777216.
  change (2 ^ 63) with 9223372036854775808. lia.
Qed.

(** A successful call leaves a state that fits the layout, and returns
    the packed state, provided the counter was not negative and not at
    the largest int64 before the call. *)
Lemma nextID_success_fits current sf :
  is_uint16 (machineID sf) -> 0 <= elapsedTime sf < maxInt64 ->
  succeeded (snd (nextID_from current sf)) ->
  fits_layout (fst (nextID_from current sf)) /\
  machineID (fst (nextID_from current sf)) = machineID sf /\
  fst (snd (nextID_from current sf)) = packed (fst (nextID_from current sf)).
Proof.
  unfold nextID_from. cbn [fst snd]. intros Hm He Hok.
  apply toID_succeeded in Hok.
  assert (Hfit : fits_layout (fst (advance current sf)) /\
                 machineID (fst (advance current sf)) = machineID sf).
  { revert Hok. unfold fits_layout, maxInt64, is_uint16 in *.
    pose proof (Z.mod_pos_bound (sequence sf + 1) (2 ^ 8) ltac:(lia)) as Hb.
    advance_cases current sf; intros Hok.
    - pow_literals. repeat split; try assumption; lia.
    - rewrite wrap_int64_id in * by (unfold is_int64, minInt64, maxInt64; lia).
      pow_literals. repeat split; try assumption; lia.
    - pow_literals. repeat split; try assumption; lia. }
  destruct Hfit as [Hfit Hmid]. split; [assumption |]. split; [assumption |].
  rewrite (toID_packed _ Hfit). reflexivity.
Qed.

(** From a state that fits the layout, a successful call packs to a
    strictly larger number. *)
Lemma nextID_success_increases current sf :
  fits_layout sf ->
  succeeded (snd (nextID_from current sf)) ->
  packed sf < packed (fst (nextID_from current sf)).
Proof.
  unfold nextID_from. cbn [fst snd]. intros (He & Hs & Hm) Hok.
  apply toID_succeeded in Hok. revert Hok. unfold packed, is_uint16 in *.
  pose proof (Z.mod_pos_bound (sequence sf + 1) (2 ^ 8) ltac:(lia)) as Hb.
  change (2 ^ 39) with 549755813888 in *. change (2 ^ 8) with 256 in *.
  change (2 ^ 16) with 65536 in *. change (2 ^ 24) with 16777216.
  advance_cases current sf; intros Hok.
  - lia.
  - rewrite wrap_int64_id in *
      by (unfold is_int64, minInt64, maxInt64; lia).
    assert (sequence sf = 255) by (revert Hseq; change (2 ^ 8) with 256; div_lia).
    lia.
  - assert ((sequence sf + 1) mod 2 ^ 8 = sequence sf + 1)
      by (revert Hseq; change (2 ^ 8) with 256; div_lia).
    lia.
Qed.

Lemma run_cons c cs sf :
  run (c :: cs) sf =
  (fst (run cs (fst (nextID_from c sf))),
   snd (nextID_from c sf) :: snd (run cs (fst (nextID_from c sf)))).
Proof.
  cbn [run]. destruct (nextID_from c sf) as [sf1 r]. cbn [fst snd].
  destruct (run cs sf1) as [sf2 rs]. reflexivity.
Qed.

Lemma run_increasing cs : forall sf,
  fits_layout sf ->
  Forall succeeded (snd (run cs sf)) ->
  Forall (fun id => packed sf < id < 2 ^ 63) (map fst (snd (run cs sf))) /\
  strictly_increasing (map fst (snd (run cs sf))).
Proof.
  induction cs as [| c cs IH]; intros sf Hfit Hall.
  - cbn. split; constructor.
  - rewrite run_cons in *. cbn [snd map] in *.
    inversion Hall as [| ? ? Hok Hrest]; subst.
    pose proof Hfit as (He & _ & Hm).
    destruct (nextID_success_fits c sf Hm) as (Hfit1 & _ & Hid); [| assumption |].
    { unfold maxInt64. lia. }
    pose proof (nextID_success_increases c sf Hfit Hok) as Hinc.
    pose proof (packed_range _ Hfit1) as Hrange.
    destruct (IH _ Hfit1 Hrest) as [Hlow Hsorted].
    rewrite Hid. split.
    + constructor; [lia |].
      eapply Forall_impl; [exact Hlow |]. cbv beta. intros; lia.
    + constructor; [assumption |].
      eapply Forall_impl; [exact Hlow |]. cbv beta. intros; lia.
Qed.

(** C2: for a generator whose counter is not negative and not at the
    largest int64 (as after construction and after every successful
    call), and for every list of clock readings, stalled or going
    backward included, if the consecutive calls all succeed then the
    values they return are strictly increasing in call order, and each
    is below 2^63. *)
Theorem consecutive_ids_increase (sf : Snooflake) (currents : list Z) :
  is_uint16 (machineID sf) ->
  0 <= elapsedTime sf < maxInt64 ->
  Forall succeeded (snd (run currents sf)) ->
  strictly_increasing (map fst (snd (run currents sf))) /\
  Forall (fun id => 0 <= id < 2 ^ 63) (map fst (snd (run currents sf))).
Proof.
  intros Hm He Hall. destruct currents as [| c cs].
  - cbn. split; constructor.
  - rewrite run_cons in *. cbn [snd map] in *.
    inversion Hall as [| ? ? Hok Hrest]; subst.
    destruct (nextID_success_fits c sf Hm He Hok) as (Hfit1 & _ & Hid).
    pose proof (packed_range _ Hfit1) as Hrange.
    destruct (run_increasing cs _ Hfit1 Hrest) as [Hlow Hsorted].
    rewrite Hid. split.
    + constructor; [assumption |].
      eapply Forall_impl; [exact Hlow |]. cbv beta. intros; lia.
    + constructor; [lia |].
      eapply Forall_impl; [exact Hlow |]. cbv beta. intros; lia.
Qed.

Lemma consecutive_ids_increase_witness :
  strictly_increasing
    (map fst (snd (run [5; 5; 3; 5; 9; 2] (mkSnooflake 0 0 255 1)))).
Proof.
  apply consecutive_ids_increase.
  - unfold is_uint16. cbn. lia.
  - unfold maxInt64. cbn [elapsedTime]. lia.
  - repeat constructor.
Defined.

(** ** Batch allocation *)

Lemma readings_succ clock i n :
  readings clock i (S n) = clock i :: readings clock (S i) n.
Proof. reflexivity. Qed.

Lemma insert_after_prefix (pre : list Z) (id : Z) (n : nat) :
  <[length pre := id]> (pre ++ replicate (S n) 0) = (pre ++ [id]) ++ replicate n 0.
Proof.
  rewrite insert_app_r_alt by lia.
  replace (length pre - length pre)%nat with 0%nat by lia.
  cbn. rewrite <- app_assoc. reflexivity.
Qed.

(** The loop when no call fails: every value is stored. *)
Lemma NextIDs_loop_all_succeed clock remaining : forall pre sf,
  Forall succeeded (snd (run (readings clock (length pre) remaining) sf)) ->
  NextIDs_loop clock remaining (length pre) (pre ++ replicate remaining 0) sf =
  (fst (run (readings clock (length pre) remaining) sf),
   (pre ++ map fst (snd (run (readings clock (length pre) remaining) sf)), None)).
Proof.
  induction remaining as [| r IH]; intros pre sf Hall.
  - cbn. rewrite !app_nil_r. reflexivity.
  - rewrite readings_succ, run_cons in *. cbn [NextIDs_loop].
    destruct (nextID_from (clock (length pre)) sf) as [sf1 [id err]].
    cbn [fst snd map] in *.
    inversion Hall as [| ? ? Hok Hrest]; subst.
    unfold succeeded in Hok. cbn [snd] in Hok. subst err.
    rewrite insert_after_prefix.
    replace (S (length pre)) with (length (pre ++ [id])) in *
      by (rewrite length_app; cbn; lia).
    rewrite (IH (pre ++ [id]) sf1 Hrest).
    rewrite <- app_assoc. reflexivity.
Qed.

(** The loop when call [k] is the first to fail: the slice keeps its
    length, holds the [k] values produced and zeros after them. *)
Lemma NextIDs_loop_first_failure clock remaining : forall pre sf k e,
  Forall succeeded (take k (snd (run (readings clock (length pre) remaining) sf))) ->
  snd <$> (snd (run (readings clock (length pre) remaining) sf) !! k) = Some (Some e) ->
  NextIDs_loop clock remaining (length pre) (pre ++ replicate remaining 0) sf =
  (fst (run (readings clock (length pre) (S k)) sf),
   (pre ++ map fst (take k (snd (run (readings clock (length pre) remaining) sf)))
        ++ replicate (remaining - k) 0,
    Some e)).
Proof.
  induction remaining as [| r IH]; intros pre sf k e Hall Hk.
  - cbn in Hk. discriminate.
  - rewrite !readings_succ, !run_cons in *. cbn [NextIDs_loop].
    destruct (nextID_from (clock (length pre)) sf) as [sf1 [id err]].
    cbn [fst snd] in *.
    destruct k as [| k].
    + cbn in Hk. injection Hk as ->. cbn. reflexivity.
    + cbn [take map lookup list_lookup] in *.
      inversion Hall as [| ? ? Hok Hrest]; subst.
      unfold succeeded in Hok. cbn [snd] in Hok. subst err.
      rewrite insert_after_prefix.
      replace (S (length pre)) with (length (pre ++ [id])) in *
        by (rewrite length_app; cbn; lia).
      rewrite (IH (pre ++ [id]) sf1 k e Hrest Hk).
      rewrite <- !app_assoc. reflexivity.
Qed.

Lemma run_length cs : forall sf, length (snd (run cs sf)) = length cs.
Proof.
  induction cs as [| c cs IH]; intros sf; [reflexivity |].
  rewrite run_cons. cbn [snd length]. rewrite IH. reflexivity.
Qed.

Lemma readings_length clock i n : length (readings clock i n) = n.
Proof. unfold readings. rewrite length_map, length_seq. reflexivity. Qed.

(** C4, as stated, fails: with the first failure at item 1 of a batch
    of 3, the slice returned has 3 entries (the value produced and two
    zeros), not the single value produced.  It also fails for a count
    that [make] refuses, such as 2^62, where nothing is returned. *)
Lemma NextIDs_failure_returns_full_slice :
  let sf := mkSnooflake 0 0 255 1 in
  let clock := fun i : nat => match i with O => 5 | _ => 2 ^ 39 end in
  snd (run (readings clock 0 3) sf) =
    [(83886081, None); (0, Some errOverTimeLimit); (0, Some errOverTimeLimit)] /\
  snd <$> NextIDs maxAlloc_linux64 clock 3 sf
    = Some ([83886081; 0; 0], Some errOverTimeLimit) /\
  snd <$> NextIDs maxAlloc_linux64 clock 3 sf
    <> Some ([83886081], Some errOverTimeLimit) /\
  NextIDs maxAlloc_linux64 clock (2 ^ 62) sf = None.
Proof.
  cbv zeta. split; [reflexivity |].
  assert (H : snd <$> NextIDs maxAlloc_linux64
                        (fun i : nat => match i with O => 5 | _ => 2 ^ 39 end)
                        3 (mkSnooflake 0 0 255 1)
              = Some ([83886081; 0; 0], Some errOverTimeLimit)) by reflexivity.
  split; [exact H |]. split; [rewrite H; intros [=] | reflexivity].
Qed.

Lemma NextIDs_loop_length clock remaining : forall i ids sf,
  length (fst (snd (NextIDs_loop clock remaining i ids sf))) = length ids.
Proof.
  induction remaining as [| r IH]; intros i ids sf; [reflexivity |].
  cbn [NextIDs_loop].
  destruct (nextID_from (clock i) sf) as [sf1 [id [e |]]]; [reflexivity |].
  rewrite IH. apply length_insert.
Qed.

(** C4, amended: for every N >= 0 that [make] accepts (8 N bytes
    within the largest allocation of the platform), [NextIDs] returns a
    slice of length N.  If no item fails, the slice holds the N values
    in call order and the error is nil.  If the first failure is at item
    k < N, the first k entries are the values produced by items 0..k-1,
    the remaining N - k entries are 0, the failure is returned with the
    slice, and no call is made after the failing one. *)
Theorem NextIDs_result (maxAlloc : Z) (clock : nat -> Z) (num : Z) (sf : Snooflake) :
  0 <= num -> 8 * num <= maxAlloc ->
  let n := Z.to_nat num in
  let rs := snd (run (readings clock 0 n) sf) in
  exists sf' ids err,
    NextIDs maxAlloc clock num sf = Some (sf', (ids, err)) /\
    length ids = n /\
    (Forall succeeded rs ->
       err = None /\ ids = map fst rs /\
       sf' = fst (run (readings clock 0 n) sf)) /\
    (forall (k : nat) (e : error),
       Forall succeeded (take k rs) ->
       snd <$> (rs !! k) = Some (Some e) ->
       (k < n)%nat /\ err = Some e /\
       ids = map fst (take k rs) ++ replicate (n - k) 0 /\
       sf' = fst (run (readings clock 0 (S k)) sf)).
Proof.
  intros Hnum Hfits n rs. unfold NextIDs, makeslice_ok.
  destruct (Z.leb_spec 0 num) as [_ | Hneg]; [| lia].
  destruct (Z.leb_spec (8 * num) maxAlloc) as [_ | Hbig]; [| lia].
  cbn [andb]. fold n.
  pose proof (NextIDs_loop_length clock n 0 (replicate n 0) sf) as Hlenids.
  destruct (NextIDs_loop clock n 0 (replicate n 0) sf) as [sf' [ids err]] eqn:Hloop.
  cbn [fst snd] in Hlenids. rewrite length_replicate in Hlenids.
  exists sf', ids, err. split; [reflexivity |]. split; [exact Hlenids |].
  assert (Hlen : length rs = n).
  { unfold rs. rewrite run_length, readings_length. reflexivity. }
  split.
  - intros Hall.
    pose proof (NextIDs_loop_all_succeed clock n [] sf Hall) as H.
    cbn [length app] in H. rewrite Hloop in H.
    injection H as -> -> ->. auto.
  - intros k e Hall Hk.
    assert (Hkn : (k < n)%nat).
    { rewrite <- Hlen. apply lookup_lt_is_Some.
      destruct (rs !! k); [eauto | discriminate]. }
    pose proof (NextIDs_loop_first_failure clock n [] sf k e Hall Hk) as H.
    cbn [length app] in H. rewrite Hloop in H.
    injection H as -> -> ->. auto.
Qed.

Lemma NextIDs_result_witness :
  exists sf',
    NextIDs maxAlloc_linux64 (fun i : nat => match i with O => 5 | _ => 2 ^ 39 end) 3
            (mkSnooflake 0 0 255 1)
    = Some (sf', ([83886081; 0; 0], Some errOverTimeLimit)).
Proof.
  destruct (NextIDs_result maxAlloc_linux64
              (fun i : nat => match i with O => 5 | _ => 2 ^ 39 end)
              3 (mkSnooflake 0 0 255 1))
    as (sf' & ids & err & Heq & _ & _ & Hfail);
    [lia | vm_compute; discriminate |].
  destruct (Hfail 1%nat errOverTimeLimit) as (_ & -> & -> & _).
  - repeat constructor.
  - reflexivity.
  - exists sf'. exact Heq.
Defined.

(** ** Construction *)

Lemma lower16BitPrivateIP_uint16 ifaddrs : is_uint16 (fst (lower16BitPrivateIP ifaddrs)).
Proof.
  unfold lower16BitPrivateIP.
  destruct (privateIPv4 ifaddrs) as [ip [e |]]; cbn [fst].
  - unfold is_uint16. lia.
  - unfold is_uint16, wrap_uint16. apply Z.mod_pos_bound. lia.
Qed.

Lemma resolved_machineID_uint16 ifaddrs st :
  wf_Settings st -> is_uint16 (fst (resolved_machineID ifaddrs st)).
Proof.
  unfold wf_Settings, resolved_machineID.
  destruct (MachineID st); [auto | intros _; apply lower16BitPrivateIP_uint16].
Qed.

Lemma NewSnooflake_unfold now ifaddrs st :
  NewSnooflake now ifaddrs st =
  if After (StartTime st) now then None
  else match snd (resolved_machineID ifaddrs st) with
       | Some _ => None
       | None =>
           if match CheckMachineID st with
              | Some check => negb (check (fst (resolved_machineID ifaddrs st)))
              | None => false
              end
           then None
           else Some (mkSnooflake
                        (if IsZero (StartTime st) then toSnooflakeTime defaultStartTime
                         else toSnooflakeTime (StartTime st))
                        0 255 (fst (resolved_machineID ifaddrs st)))
       end.
Proof.
  unfold NewSnooflake, resolved_machineID.
  destruct (After (StartTime st) now); [reflexivity |].
  destruct (match MachineID st with
            | Some r => r
            | None => lower16BitPrivateIP ifaddrs
            end) as [mid err].
  reflexivity.
Qed.

Lemma toSnooflakeTime_range t : - 2 ^ 44 < toSnooflakeTime t < 2 ^ 44.
Proof.
  unfold toSnooflakeTime, UnixNano, snooflakeTimeUnit.
  pose proof (wrap_int64_range t) as H.
  unfold is_int64, minInt64, maxInt64 in H.
  change (10 ^ 6) with 1000000. change (2 ^ 44) with 17592186044416.
  change (2 ^ 63) with 9223372036854775808 in H. quot_lia.
Qed.

Lemma NewSnooflake_nil_iff now ifaddrs st :
  NewSnooflake now ifaddrs st = None <->
  now < StartTime st \/
  snd (resolved_machineID ifaddrs st) <> None \/
  (exists check, CheckMachineID st = Some check /\
                 check (fst (resolved_machineID ifaddrs st)) = false).
Proof.
  rewrite NewSnooflake_unfold. unfold After.
  destruct (Z.ltb_spec now (StartTime st)) as [Hlt | Hge].
  { split; auto. }
  destruct (snd (resolved_machineID ifaddrs st)) as [e |] eqn:Herr.
  { split; [intros _ | reflexivity]. right. left. discriminate. }
  destruct (CheckMachineID st) as [check |] eqn:Hcheck.
  - destruct (check (fst (resolved_machineID ifaddrs st))) eqn:Hc; cbn [negb].
    + split; [discriminate |].
      intros [H | [H | (check' & [= <-] & H)]]; [lia | contradiction | congruence].
    + split; [intros _ | reflexivity]. right. right. eauto.
  - split; [discriminate |].
    intros [H | [H | (check' & [=] & _)]]; [lia | contradiction].
Qed.

Lemma NewSnooflake_some now ifaddrs st sf :
  NewSnooflake now ifaddrs st = Some sf ->
  sequence sf = 2 ^ 8 - 1 /\ elapsedTime sf = 0 /\
  machineID sf = fst (resolved_machineID ifaddrs st) /\
  startTime sf =
    toSnooflakeTime (if IsZero (StartTime st) then Date 2014 9 1 else StartTime st).
Proof.
  rewrite NewSnooflake_unfold.
  destruct (After (StartTime st) now); [discriminate |].
  destruct (snd (resolved_machineID ifaddrs st)); [discriminate |].
  destruct (match CheckMachineID st with
            | Some check => negb (check (fst (resolved_machineID ifaddrs st)))
            | None => false
            end); [discriminate |].
  intros [= <-]. cbn [sequence elapsedTime machineID startTime].
  repeat split. unfold defaultStartTime.
  destruct (IsZero (StartTime st)); reflexivity.
Qed.

(** C7: construction returns nil exactly when the configured start time
    is strictly after the current time, or the machine-id provider in
    use returns an error, or a validator is supplied and rejects the
    resolved machine id.  On success the generator has sequence 2^8 - 1,
    elapsedTime 0, the resolved machine id, and as start time the
    configured one, or 2014-09-01 00:00:00 UTC (Unix second 1409529600)
    when the configured one is the zero time. *)
Theorem NewSnooflake_result (now : Time) (ifaddrs : list Addr * option error)
    (st : Settings) :
  (NewSnooflake now ifaddrs st = None <->
     now < StartTime st \/
     snd (resolved_machineID ifaddrs st) <> None \/
     (exists check, CheckMachineID st = Some check /\
                    check (fst (resolved_machineID ifaddrs st)) = false)) /\
  (forall sf, NewSnooflake now ifaddrs st = Some sf ->
     sequence sf = 2 ^ 8 - 1 /\ elapsedTime sf = 0 /\
     machineID sf = fst (resolved_machineID ifaddrs st) /\
     startTime sf =
       toSnooflakeTime (if IsZero (StartTime st) then Date 2014 9 1 else StartTime st)) /\
  Date 2014 9 1 = 1409529600 * 10 ^ 9 /\
  toSnooflakeTime (Date 2014 9 1) = 1409529600000.
Proof.
  split; [apply NewSnooflake_nil_iff |].
  split; [intros sf; apply NewSnooflake_some |].
  split; reflexivity.
Qed.

Lemma NewSnooflake_result_witness :
  NewSnooflake (Date 2014 9 1) ([], None)
    (mkSettings (Date 2014 9 1 + 3600 * 10 ^ 9) (Some (7, None)) None) = None /\
  NewSnooflake (Date 2014 9 1) ([], None)
    (mkSettings zeroTime (Some (7, None)) (Some (fun _ => false))) = None /\
  sequence (mkSnooflake 1409529600000 0 255 7) = 2 ^ 8 - 1.
Proof.
  split; [| split].
  - apply (NewSnooflake_result (Date 2014 9 1) ([], None)
             (mkSettings (Date 2014 9 1 + 3600 * 10 ^ 9) (Some (7, None)) None)).
    left. cbn [StartTime]. lia.
  - apply (NewSnooflake_result (Date 2014 9 1) ([], None)
             (mkSettings zeroTime (Some (7, None)) (Some (fun _ => false)))).
    right. right. eexists. split; reflexivity.
  - apply (NewSnooflake_result (Date 2014 9 1) ([], None)
             (mkSettings zeroTime (Some (7, None)) None)).
    reflexivity.
Defined.

(** ** The time unit *)

Lemma toSnooflakeTime_after_25ms T0 :
  0 <= T0 -> T0 + 25 * Millisecond <= maxInt64 ->
  toSnooflakeTime (addDuration T0 (25 * Millisecond)) = toSnooflakeTime T0 + 25.
Proof.
  unfold toSnooflakeTime, UnixNano, addDuration, snooflakeTimeUnit, Millisecond, maxInt64.
  intros H0 Hmax.
  rewrite !wrap_int64_id by (unfold is_int64, minInt64, maxInt64; lia).
  change (10 ^ 6) with 1000000. quot_lia.
Qed.

(** C3: the package comment gives the time of an identifier in units of
    10 msec, and the claim says the same: with the start time T0 and the
    clock at T0 + 25 ms the first allocation decodes to time 2 and
    sequence 0.  The code does not do that: [snooflakeTimeUnit] is 10^6
    nanoseconds, not 10^7, and for a generator constructed with the
    start time 2014-09-01 00:00:00 UTC and the machine id 7, the first
    identifier allocated 25 ms later decodes to time 25 (and sequence
    0), not to time 2. *)
Lemma first_allocation_after_25ms_is_not_2 :
  let T0 := Date 2014 9 1 in
  let sf := mkSnooflake 1409529600000 0 255 7 in
  let id := fst (snd (NextID (addDuration T0 (25 * Millisecond)) sf)) in
  snooflakeTimeUnit = 10 ^ 6 /\ snooflakeTimeUnit <> 10 ^ 7 /\
  NewSnooflake T0 ([], None) (mkSettings T0 (Some (7, None)) None) = Some sf /\
  snd (NextID (addDuration T0 (25 * Millisecond)) sf) = (id, None) /\
  Decompose id !! "time" = Some 25 /\
  Decompose id !! "time" <> Some 2 /\
  Decompose id !! "sequence" = Some 0.
Proof.
  cbv zeta.
  assert (Hid : snd (NextID (addDuration (Date 2014 9 1) (25 * Millisecond))
                       (mkSnooflake 1409529600000 0 255 7))
                = (25 * 2 ^ 24 + 7, None)) by reflexivity.
  rewrite Hid. cbn [fst].
  destruct (Decompose_lookup (25 * 2 ^ 24 + 7)) as (_ & _ & Ht & Hs & _).
  rewrite Ht, Hs.
  repeat split; try reflexivity; vm_compute; congruence.
Qed.

(** The same reading for every start time T0 at or after the Unix epoch
    with T0 + 25 ms within int64 nanoseconds: the elapsed time that the
    code computes 25 ms after T0 is 25 units of 10^6 nanoseconds, and
    the first allocation of a newly constructed generator decodes to
    time 25 and sequence 0. *)
Theorem first_allocation_time_unit (T0 now0 : Time)
    (ifaddrs : list Addr * option error) (st : Settings) (sf : Snooflake) :
  wf_Settings st ->
  StartTime st = T0 -> 0 <= T0 -> T0 + 25 * Millisecond <= maxInt64 ->
  NewSnooflake now0 ifaddrs st = Some sf ->
  snooflakeTimeUnit = 10 ^ 6 /\
  currentElapsedTime (addDuration T0 (25 * Millisecond)) (startTime sf) = 25 /\
  exists id,
    snd (NextID (addDuration T0 (25 * Millisecond)) sf) = (id, None) /\
    Decompose id !! "time" = Some 25 /\
    Decompose id !! "sequence" = Some 0 /\
    Decompose id !! "machine-id" = Some (machineID sf).
Proof.
  intros Hwf HT0 H0 Hmax Hnew.
  destruct (NewSnooflake_some now0 ifaddrs st sf Hnew) as (Hseq & He & Hm & Hstart).
  assert (Hz : IsZero (StartTime st) = false).
  { unfold IsZero, zeroTime. rewrite HT0.
    destruct (Z.eqb_spec T0 (-62135596800 * 10 ^ 9)); [lia | reflexivity]. }
  rewrite Hz, HT0 in Hstart.
  assert (Hcur : currentElapsedTime (addDuration T0 (25 * Millisecond)) (startTime sf) = 25).
  { unfold currentElapsedTime.
    rewrite Hstart, toSnooflakeTime_after_25ms by assumption.
    replace (toSnooflakeTime T0 + 25 - toSnooflakeTime T0) with 25 by lia.
    reflexivity. }
  split; [reflexivity |]. split; [exact Hcur |].
  pose proof (resolved_machineID_uint16 ifaddrs st Hwf) as Hmid.
  rewrite <- Hm in Hmid. unfold is_uint16 in Hmid.
  exists (encode 25 0 (machineID sf)).
  unfold NextID, nextID. rewrite Hcur. unfold nextID_from. cbn [fst snd].
  rewrite advance_new_unit by lia.
  cbn [fst]. rewrite toID_encode. cbn [elapsedTime sequence machineID].
  split; [reflexivity |].
  rewrite Decompose_encode by lia.
  repeat split; by simplify_map_eq.
Qed.

Lemma first_allocation_time_unit_witness :
  currentElapsedTime (addDuration (Date 2014 9 1) (25 * Millisecond)) 1409529600000 = 25.
Proof.
  apply (first_allocation_time_unit (Date 2014 9 1) (Date 2014 9 1) ([], None)
           (mkSettings (Date 2014 9 1) (Some (7, None)) None)
           (mkSnooflake 1409529600000 0 255 7)).
  - unfold wf_Settings, is_uint16. cbn. lia.
  - reflexivity.
  - vm_compute. discriminate.
  - vm_compute. discriminate.
  - reflexivity.
Defined.

Example first_allocation_before_unix_epoch :
  currentElapsedTime (addDuration (-500) (25 * Millisecond)) (toSnooflakeTime (-500)) = 24.
Proof. reflexivity. Qed.

(** ** Machine-id discovery *)

Lemma To4_length ip : To4 ip = [] \/ length (To4 ip) = 4%nat.
Proof.
  unfold To4.
  destruct (decide (length ip = 4%nat)); [auto |].
  destruct (decide (length ip = 16%nat)) as [H16 |]; [| auto].
  destruct (forallb (Z.eqb 0) (take 10 ip) && (byteAt ip 10 =? 255)
            && (byteAt ip 11 =? 255)); [| auto].
  right. rewrite length_drop, H16. reflexivity.
Qed.

Lemma To4_bytes ip : Forall is_byte ip -> Forall is_byte (To4 ip).
Proof.
  intros H. unfold To4.
  destruct (decide (length ip = 4%nat)); [assumption |].
  destruct (decide (length ip = 16%nat)); [| constructor].
  destruct (forallb (Z.eqb 0) (take 10 ip) && (byteAt ip 10 =? 255)
            && (byteAt ip 11 =? 255)); [| constructor].
  apply Forall_drop. assumption.
Qed.

Lemma isPrivateIPv4_nil : isPrivateIPv4 [] = false.
Proof. reflexivity. Qed.

(** A loopback address is never private, so skipping it changes
    nothing. *)
Lemma loopback_not_private ip :
  IsLoopback ip = true -> isPrivateIPv4 (To4 ip) = false.
Proof.
  unfold IsLoopback. destruct (To4 ip) as [| a l] eqn:H4; [reflexivity |].
  unfold byteAt. cbn [lookup list_lookup].
  intros H127. apply Z.eqb_eq in H127. subst a.
  unfold isPrivateIPv4, byteAt. cbn [lookup list_lookup].
  rewrite bool_decide_eq_false_2 by discriminate. reflexivity.
Qed.

Lemma privateIPv4_loop_first addrs :
  privateIPv4_loop addrs =
  match first_private addrs with
  | Some ip => (ip, None)
  | None => ([], Some errNoPrivateIP)
  end.
Proof.
  unfold first_private, ipv4_addresses.
  induction addrs as [| a addrs IH]; [reflexivity |].
  cbn [privateIPv4_loop omap list_omap]. destruct a as [ip0 mask | ip0].
  - destruct (IsLoopback ip0) eqn:Hloop.
    + apply loopback_not_private in Hloop.
      destruct (To4 ip0) as [| b l] eqn:H4; [exact IH |].
      rewrite filter_cons. destruct (decide (isPrivateIPv4 (b :: l) = true)); [congruence |].
      exact IH.
    + destruct (isPrivateIPv4 (To4 ip0)) eqn:Hpriv.
      * destruct (To4 ip0) as [| b l] eqn:H4; [discriminate |].
        rewrite filter_cons. destruct (decide (isPrivateIPv4 (b :: l) = true)); [| congruence].
        reflexivity.
      * destruct (To4 ip0) as [| b l] eqn:H4; [exact IH |].
        rewrite filter_cons. destruct (decide (isPrivateIPv4 (b :: l) = true)); [congruence |].
        exact IH.
  - exact IH.
Qed.

Lemma isPrivateIPv4_octets a b c d :
  isPrivateIPv4 [a; b; c; d] =
  (a =? 10) || (a =? 172) && ((16 <=? b) && (b <? 32)) || (a =? 192) && (b =? 168).
Proof.
  unfold isPrivateIPv4, byteAt. cbn [lookup list_lookup].
  rewrite bool_decide_eq_false_2 by discriminate. reflexivity.
Qed.

(** The classification agrees with the three private blocks. *)
Lemma isPrivateIPv4_ranges a b c d :
  is_byte a -> is_byte b -> is_byte c -> is_byte d ->
  isPrivateIPv4 [a; b; c; d] = true <-> private_range (ipv4_value a b c d).
Proof.
  unfold is_byte. intros Ha Hb Hc Hd.
  rewrite isPrivateIPv4_octets.
  unfold private_range, inCIDR, ipv4_value.
  change (32 - 8) with 24. change (32 - 12) with 20. change (32 - 16) with 16.
  change ((10 * 2 ^ 24 + 0 * 2 ^ 16 + 0 * 2 ^ 8 + 0) / 2 ^ 24) with 10.
  change ((172 * 2 ^ 24 + 16 * 2 ^ 16 + 0 * 2 ^ 8 + 0) / 2 ^ 20) with 2753.
  change ((192 * 2 ^ 24 + 168 * 2 ^ 16 + 0 * 2 ^ 8 + 0) / 2 ^ 16) with 49320.
  change (2 ^ 8) with 256 in *. change (2 ^ 16) with 65536.
  change (2 ^ 20) with 1048576. change (2 ^ 24) with 16777216.
  rewrite !orb_true_iff, !andb_true_iff, !Z.eqb_eq, Z.leb_le, Z.ltb_lt.
  split.
  - intros [[H | (H1 & H2 & H3)] | (H1 & H2)]; [left | right; left | right; right];
      div_lia.
  - intros [H | [H | H]].
    + left. left. div_lia.
    + left. right. div_lia.
    + right. div_lia.
Qed.

Lemma lower16_value c d :
  is_byte c -> is_byte d ->
  wrap_uint16 (shl_uint16 c 8 + d) = Z.lor (Z.shiftl c 8) d.
Proof.
  unfold is_byte, wrap_uint16, shl_uint16, wrap_uint16. intros Hc Hd.
  rewrite Z.shiftl_mul_pow2 by lia.
  rewrite lor_mul_pow2_add by lia.
  change (2 ^ 8) with 256 in *. change (2 ^ 16) with 65536.
  rewrite (Z.mod_small (c * 256)) by lia.
  apply Z.mod_small. lia.
Qed.

Lemma first_private_spec addrs ip :
  Forall wf_Addr addrs -> first_private addrs = Some ip ->
  exists a b c d,
    ip = [a; b; c; d] /\ is_byte a /\ is_byte b /\ is_byte c /\ is_byte d /\
    isPrivateIPv4 ip = true.
Proof.
  unfold first_private, ipv4_addresses.
  induction addrs as [| x addrs IH]; intros Hwf Hfirst; [discriminate |].
  inversion Hwf as [| ? ? Hx Hrest]; subst.
  cbn [omap list_omap] in Hfirst.
  destruct x as [ip0 mask | ip0]; [| auto].
  cbn [wf_Addr] in Hx. apply To4_bytes in Hx.
  destruct (To4_length ip0) as [Hnil | Hlen].
  - rewrite Hnil in Hfirst. auto.
  - destruct (To4 ip0) as [| a [| b [| c [| d [| ? ?]]]]] eqn:H4; try discriminate.
    rewrite filter_cons in Hfirst.
    destruct (decide (isPrivateIPv4 [a; b; c; d] = true)) as [Hp | Hp]; [| auto].
    cbn in Hfirst. injection Hfirst as <-.
    inversion Hx as [| ? ? Ha Hx1]; subst.
    inversion Hx1 as [| ? ? Hb Hx2]; subst.
    inversion Hx2 as [| ? ? Hc Hx3]; subst.
    inversion Hx3 as [| ? ? Hd _]; subst.
    exists a, b, c, d. auto 10.
Qed.

(** C9: an IPv4 address is classified private exactly when it lies in
    10.0.0.0/8, 172.16.0.0/12 or 192.168.0.0/16; the default machine id
    is [octet3 << 8 | octet4] of the first private IPv4 address among
    the interface addresses; and the derivation fails when there is no
    such address, or when the interface addresses cannot be read. *)
Theorem lower16BitPrivateIP_result (addrs : list Addr) :
  Forall wf_Addr addrs ->
  (forall a b c d, is_byte a -> is_byte b -> is_byte c -> is_byte d ->
     (isPrivateIPv4 [a; b; c; d] = true <-> private_range (ipv4_value a b c d))) /\
  match first_private addrs with
  | Some ip =>
      exists a b c d,
        ip = [a; b; c; d] /\ private_range (ipv4_value a b c d) /\
        lower16BitPrivateIP (addrs, None) = (Z.lor (Z.shiftl c 8) d, None)
  | None => lower16BitPrivateIP (addrs, None) = (0, Some errNoPrivateIP)
  end /\
  (forall e, lower16BitPrivateIP (addrs, Some e) = (0, Some e)).
Proof.
  intros Hwf. split; [exact isPrivateIPv4_ranges |]. split; [| reflexivity].
  unfold lower16BitPrivateIP, privateIPv4. cbn [fst snd].
  rewrite privateIPv4_loop_first.
  destruct (first_private addrs) as [ip |] eqn:Hfirst; [| reflexivity].
  destruct (first_private_spec addrs ip Hwf Hfirst)
    as (a & b & c & d & -> & Ha & Hb & Hc & Hd & Hp).
  exists a, b, c, d. split; [reflexivity |].
  split; [apply isPrivateIPv4_ranges; assumption |].
  unfold byteAt. cbn [lookup list_lookup].
  rewrite lower16_value by assumption. reflexivity.
Qed.

Lemma lower16BitPrivateIP_result_witness :
  lower16BitPrivateIP
    ([OtherAddr [10; 0; 0; 1]; IPNet [127; 0; 0; 1] [255; 0; 0; 0];
      IPNet [8; 8; 8; 8] []; IPNet [172; 20; 3; 4] []; IPNet [10; 0; 0; 9] []], None)
  = (772, None) /\
  lower16BitPrivateIP ([IPNet [172; 32; 0; 1] []; IPNet IPv6loopback []], None)
  = (0, Some errNoPrivateIP).
Proof.
  split.
  - destruct (lower16BitPrivateIP_result
                [OtherAddr [10; 0; 0; 1]; IPNet [127; 0; 0; 1] [255; 0; 0; 0];
                 IPNet [8; 8; 8; 8] []; IPNet [172; 20; 3; 4] []; IPNet [10; 0; 0; 9] []])
      as (_ & (a & b & c & d & [= <- <- <- <-] & _ & H) & _).
    + repeat constructor; unfold is_byte; lia.
    + exact H.
  - destruct (lower16BitPrivateIP_result
                [IPNet [172; 32; 0; 1] []; IPNet IPv6loopback []])
      as (_ & H & _).
    + repeat constructor; unfold is_byte; lia.
    + exact H.
Defined.

(** ** A constructed generator driven by the clock *)

Lemma NewSnooflake_ready now ifaddrs st sf :
  wf_Settings st -> NewSnooflake now ifaddrs st = Some sf ->
  is_uint16 (machineID sf) /\ elapsedTime sf = 0 /\ sequence sf = 255 /\
  - 2 ^ 44 < startTime sf < 2 ^ 44.
Proof.
  intros Hwf Hnew.
  destruct (NewSnooflake_some now ifaddrs st sf Hnew) as (Hseq & He & Hm & Hstart).
  rewrite Hm, Hstart. split; [apply resolved_machineID_uint16; assumption |].
  repeat split; try assumption; apply toSnooflakeTime_range.
Qed.

Lemma currentElapsedTime_range now start :
  - 2 ^ 44 < start < 2 ^ 44 ->
  - 2 ^ 45 < currentElapsedTime now start < 2 ^ 45.
Proof.
  intros Hs. unfold currentElapsedTime.
  pose proof (toSnooflakeTime_range now) as Ht.
  change (2 ^ 44) with 17592186044416 in *. change (2 ^ 45) with 35184372088832.
  rewrite wrap_int64_id; [lia |].
  unfold is_int64, minInt64, maxInt64.
  change (2 ^ 63) with 9223372036854775808. lia.
Qed.

Lemma advance_startTime current sf :
  startTime (fst (advance current sf)) = startTime sf.
Proof. advance_cases current sf; reflexivity. Qed.

(** Calls at the instants [nows] are calls with the readings taken
    against the start time, which never changes. *)
Lemma run_at_run nows : forall sf,
  run_at nows sf = run (map (fun now => currentElapsedTime now (startTime sf)) nows) sf.
Proof.
  induction nows as [| now nows IH]; intros sf; [reflexivity |].
  cbn [run_at map run]. unfold NextID, nextID.
  destruct (nextID_from (currentElapsedTime now (startTime sf)) sf) as [sf1 r] eqn:Hstep.
  assert (Hst : startTime sf1 = startTime sf).
  { replace sf1 with (fst (nextID_from (currentElapsedTime now (startTime sf)) sf))
      by (rewrite Hstep; reflexivity).
    apply advance_startTime. }
  rewrite IH, Hst. reflexivity.
Qed.

(** Every run of successful calls on a newly constructed generator,
    for any instants read from the clock, gives increasing values. *)
Corollary constructed_ids_increase now0 ifaddrs st sf (nows : list Time) :
  wf_Settings st -> NewSnooflake now0 ifaddrs st = Some sf ->
  let rs := snd (run_at nows sf) in
  Forall succeeded rs -> strictly_increasing (map fst rs).
Proof.
  intros Hwf Hnew rs. subst rs. rewrite run_at_run.
  set (rs := snd (run _ sf)). intros Hall.
  destruct (NewSnooflake_ready now0 ifaddrs st sf Hwf Hnew) as (Hm & He & _).
  assert (Hlive : 0 <= elapsedTime sf < maxInt64).
  { rewrite He. unfold maxInt64. lia. }
  destruct nows as [| now nows]; [constructor |].
  subst rs. cbn [map] in *. rewrite run_cons in *. cbn [snd map] in *.
  inversion Hall as [| ? ? Hok Hrest]; subst.
  destruct (nextID_success_fits _ sf Hm Hlive Hok) as (Hfit1 & _ & Hid).
  destruct (run_increasing _ _ Hfit1 Hrest) as [Hlow Hsorted].
  rewrite Hid. constructor; [assumption |].
  eapply Forall_impl; [exact Hlow |]. cbv beta. intros; lia.
Qed.

(** With the clock of the machine, whose readings stay below 2^45, a
    generator that has overflowed keeps failing for any number of calls
    below 2^62. *)
Corollary constructed_overflow_permanent sf (nows : list Time) :
  - 2 ^ 44 < startTime sf < 2 ^ 44 ->
  2 ^ 39 <= elapsedTime sf <= 2 ^ 62 ->
  Z.of_nat (length nows) < 2 ^ 62 ->
  Forall overflowed (snd (run_at nows sf)).
Proof.
  intros Hs He Hlen. rewrite run_at_run.
  apply (run_overflow_stays _ sf (2 ^ 62)); try lia.
  - apply List.Forall_forall. intros c Hc. apply List.in_map_iff in Hc.
    destruct Hc as (now & <- & _).
    pose proof (currentElapsedTime_range now (startTime sf) Hs) as H.
    change (2 ^ 45) with 35184372088832 in H.
    change (2 ^ 62) with 4611686018427387904. lia.
  - rewrite length_map. unfold maxInt64.
    change (2 ^ 62) with 4611686018427387904 in *.
    change (2 ^ 63) with 9223372036854775808. lia.
Qed.

(** * Further properties of the package *)

(** ** Identifiers and their fields *)

Lemma packed_encode sf :
  fits_layout sf -> packed sf = encode (elapsedTime sf) (sequence sf) (machineID sf).
Proof.
  intros (He & Hs & Hm). unfold is_uint16 in Hm.
  rewrite encode_sum by assumption. reflexivity.
Qed.

(** X1: the value returned by a successful allocation decodes to the
    state the generator is left in: time is its [elapsedTime], sequence
    its [sequence], machine-id the generator's machine id, and msb 0. *)
Theorem generated_id_decodes (current : Z) (sf : Snooflake) :
  is_uint16 (machineID sf) -> 0 <= elapsedTime sf < maxInt64 ->
  succeeded (snd (nextID_from current sf)) ->
  let sf' := fst (nextID_from current sf) in
  let id := fst (snd (nextID_from current sf)) in
  Decompose id =
  {[ "id" := id; "msb" := 0; "time" := elapsedTime sf';
     "sequence" := sequence sf'; "machine-id" := machineID sf ]}.
Proof.
  intros Hm He Hok sf' id.
  destruct (nextID_success_fits current sf Hm He Hok) as (Hfit & Hmid & Hid).
  subst sf' id. rewrite Hid, (packed_encode _ Hfit), <- Hmid.
  destruct Hfit as (He' & Hs' & Hm'). unfold is_uint16 in Hm'.
  apply Decompose_encode; assumption.
Qed.

Lemma generated_id_decodes_witness :
  Decompose (fst (snd (nextID_from 9 (mkSnooflake 0 9 41 513)))) !! "sequence" = Some 42.
Proof.
  rewrite (generated_id_decodes 9 (mkSnooflake 0 9 41 513)).
  - reflexivity.
  - unfold is_uint16. cbn. lia.
  - unfold maxInt64. cbn. lia.
  - reflexivity.
Defined.

(** X2: on states whose fields fit the layout, [toID] is injective: two
    states packed to the same value agree on elapsed time, sequence and
    machine id.  So generators with different machine ids never return
    the same value. *)
Theorem toID_injective (sf1 sf2 : Snooflake) :
  fits_layout sf1 -> fits_layout sf2 ->
  (fst (toID sf1) = fst (toID sf2) ->
   elapsedTime sf1 = elapsedTime sf2 /\ sequence sf1 = sequence sf2 /\
   machineID sf1 = machineID sf2) /\
  (machineID sf1 <> machineID sf2 -> fst (toID sf1) <> fst (toID sf2)).
Proof.
  intros Hfit1 Hfit2.
  rewrite (toID_packed _ Hfit1), (toID_packed _ Hfit2). cbn [fst].
  destruct Hfit1 as (He1 & Hs1 & Hm1). destruct Hfit2 as (He2 & Hs2 & Hm2).
  unfold is_uint16, packed in *. pow_literals.
  split; [intros Heq | intros Hne Heq]; lia.
Qed.

Lemma toID_injective_witness :
  fst (toID (mkSnooflake 0 77 3 1)) <> fst (toID (mkSnooflake 0 77 3 2)).
Proof.
  apply (toID_injective (mkSnooflake 0 77 3 1) (mkSnooflake 0 77 3 2)).
  - unfold fits_layout, is_uint16. cbn. lia.
  - unfold fits_layout, is_uint16. cbn. lia.
  - cbn. lia.
Defined.

(** X3: packing the fields that [Decompose] extracts gives the word
    back when its top bit is clear, and is refused with the
    time-overflow error when the top bit is set. *)
Theorem toID_of_Decompose (id st t s m : Z) :
  is_uint64 id ->
  Decompose id !! "time" = Some t ->
  Decompose id !! "sequence" = Some s ->
  Decompose id !! "machine-id" = Some m ->
  toID (mkSnooflake st t s m) =
  if id <? 2 ^ 63 then (id, None) else (0, Some errOverTimeLimit).
Proof.
  unfold is_uint64. intros Hid Ht Hs Hm.
  destruct (Decompose_lookup id) as (_ & _ & Ht' & Hs' & Hm').
  rewrite Ht' in Ht. rewrite Hs' in Hs. rewrite Hm' in Hm.
  injection Ht as <-. injection Hs as <-. injection Hm as <-.
  destruct (Z.ltb_spec id (2 ^ 63)) as [Hlt | Hge].
  - rewrite toID_packed.
    + unfold packed. cbn [elapsedTime sequence machineID].
      f_equal. pow_literals. div_lia.
    + unfold fits_layout, is_uint16. cbn [elapsedTime sequence machineID].
      pow_literals. repeat split; div_lia.
  - rewrite toID_encode. cbn [elapsedTime].
    destruct (Z.leb_spec (2 ^ 39) (id / 2 ^ 24)) as [_ | Hsmall]; [reflexivity |].
    exfalso. revert Hsmall. pow_literals. div_lia.
Qed.

Lemma toID_of_Decompose_witness :
  toID (mkSnooflake 0 (123456 / 2 ^ 24) ((123456 / 2 ^ 16) mod 2 ^ 8) (123456 mod 2 ^ 16))
  = (123456, None).
Proof.
  apply (toID_of_Decompose 123456 0).
  - unfold is_uint64. lia.
  - reflexivity.
  - reflexivity.
  - reflexivity.
Defined.

(** ** Allocation while the clock does not advance *)

(** One call whose reading is not ahead of the state moves the packed
    state by exactly one sequence step. *)
Lemma nextID_stalled_step current sf :
  fits_layout sf -> current <= elapsedTime sf ->
  packed sf + 2 ^ 16 < 2 ^ 63 ->
  snd (nextID_from current sf) = (packed sf + 2 ^ 16, None) /\
  fits_layout (fst (nextID_from current sf)) /\
  packed (fst (nextID_from current sf)) = packed sf + 2 ^ 16 /\
  elapsedTime sf <= elapsedTime (fst (nextID_from current sf)).
Proof.
  intros (He & Hs & Hm) Hc Hroom. unfold nextID_from. cbn [fst snd].
  assert (Hfit : fits_layout (fst (advance current sf)) /\
                 packed (fst (advance current sf)) = packed sf + 2 ^ 16 /\
                 elapsedTime sf <= elapsedTime (fst (advance current sf))).
  { revert Hroom. unfold fits_layout, packed, is_uint16 in *.
    advance_cases current sf; [lia | |]; intros Hroom.
    - assert (Hseq255 : sequence sf = 255)
        by (revert Hseq; pow_literals; div_lia).
      rewrite wrap_int64_id
        by (unfold is_int64, minInt64, maxInt64; pow_literals; lia).
      pow_literals. repeat split; lia.
    - assert (Hsmall : sequence sf < 255)
        by (revert Hseq; pow_literals; div_lia).
      rewrite Z.mod_small by (pow_literals; lia).
      pow_literals. repeat split; lia. }
  destruct Hfit as (Hfit & Hpacked & Hmono).
  rewrite (toID_packed _ Hfit), Hpacked. auto.
Qed.

(** X4: while the readings are not ahead of the generator's elapsed
    time (the clock stalls or goes backward), the calls succeed and
    return an arithmetic progression: each value is the previous one
    plus 2^16, one sequence step, carrying into the time field after
    sequence 255.  No value is skipped or repeated, as long as the time
    field has room. *)
Theorem stalled_clock_ids (currents : list Z) : forall (sf : Snooflake),
  fits_layout sf ->
  Forall (fun c => c <= elapsedTime sf) currents ->
  packed sf + Z.of_nat (length currents) * 2 ^ 16 < 2 ^ 63 ->
  snd (run currents sf) =
  map (fun j : nat => (packed sf + (Z.of_nat j + 1) * 2 ^ 16, None))
      (seq 0 (length currents)).
Proof.
  induction currents as [| c cs IH]; intros sf Hfit Hcs Hroom; [reflexivity |].
  inversion Hcs as [| ? ? Hc Hrest]; subst.
  cbn [length] in Hroom.
  destruct (nextID_stalled_step c sf Hfit Hc) as (Hres & Hfit1 & Hpacked & Hmono);
    [lia |].
  rewrite run_cons, Hres. cbn [snd length seq map].
  rewrite IH; [| assumption | | rewrite Hpacked; lia].
  - f_equal.
    rewrite <- seq_shift, map_map. apply map_ext. intros j.
    rewrite Hpacked. f_equal. lia.
  - eapply Forall_impl; [exact Hrest |]. cbv beta. intros; lia.
Qed.

Lemma stalled_clock_ids_witness :
  snd (run [4; 4; 1] (mkSnooflake 0 4 254 9)) =
  [(4 * 2 ^ 24 + 255 * 2 ^ 16 + 9, None); (5 * 2 ^ 24 + 9, None);
   (5 * 2 ^ 24 + 2 ^ 16 + 9, None)].
Proof.
  rewrite (stalled_clock_ids [4; 4; 1] (mkSnooflake 0 4 254 9)).
  - reflexivity.
  - unfold fits_layout, is_uint16. cbn. lia.
  - repeat constructor; cbn; lia.
  - vm_compute. reflexivity.
Defined.

(** X5: the first allocation of a new generator (elapsed time 0,
    sequence 2^8 - 1).  With a reading 0 < current < 2^39 it returns
    time [current] and sequence 0 without sleeping; with a reading at or
    below 0 the sequence wraps at once, so it returns time 1, sequence 0
    and sleeps for [1 - current] units (in int64 arithmetic); with a
    reading of 2^39 or more
    it fails, leaving elapsed time [current]. *)
Theorem first_allocation (current : Z) (sf : Snooflake) :
  elapsedTime sf = 0 -> sequence sf = 2 ^ 8 - 1 ->
  is_uint16 (machineID sf) -> is_int64 current ->
  let sf' := fst (nextID_from current sf) in
  (0 < current < 2 ^ 39 ->
     snd (nextID_from current sf) = (current * 2 ^ 24 + machineID sf, None) /\
     elapsedTime sf' = current /\ sequence sf' = 0 /\
     snd (advance current sf) = None) /\
  (current <= 0 ->
     snd (nextID_from current sf) = (2 ^ 24 + machineID sf, None) /\
     elapsedTime sf' = 1 /\ sequence sf' = 0 /\
     snd (advance current sf) = Some (wrap_int64 (1 - current))) /\
  (2 ^ 39 <= current ->
     snd (nextID_from current sf) = (0, Some errOverTimeLimit) /\
     elapsedTime sf' = current /\ sequence sf' = 0).
Proof.
  intros He Hs Hm Hc sf'. subst sf'. unfold nextID_from. cbn [fst snd].
  unfold is_int64, minInt64, maxInt64, is_uint16 in *.
  split; [| split].
  - intros Hrange. rewrite advance_new_unit by lia. cbn [fst snd].
    rewrite toID_packed.
    + unfold packed. cbn [elapsedTime sequence machineID].
      repeat split. f_equal. lia.
    + unfold fits_layout, is_uint16. cbn [elapsedTime sequence machineID].
      pow_literals. lia.
  - intros Hle.
    rewrite advance_borrow_unit by (rewrite ?Hs; try reflexivity; lia).
    cbn [fst snd]. rewrite He.
    rewrite (wrap_int64_id (0 + 1))
      by (unfold is_int64, minInt64, maxInt64; pow_literals; lia).
    rewrite toID_packed.
    + unfold packed. cbn [elapsedTime sequence machineID].
      pow_literals. repeat split; first [lia | f_equal; lia].
    + unfold fits_layout, is_uint16. cbn [elapsedTime sequence machineID].
      pow_literals. lia.
  - intros Hge. rewrite advance_new_unit by (pow_literals; lia). cbn [fst snd].
    rewrite toID_encode. cbn [elapsedTime sequence].
    destruct (Z.leb_spec (2 ^ 39) current); [auto | lia].
Qed.

Lemma first_allocation_witness :
  snd (nextID_from 0 (mkSnooflake 0 0 255 7)) = (2 ^ 24 + 7, None) /\
  snd (advance 0 (mkSnooflake 0 0 255 7)) = Some 1.
Proof.
  destruct (first_allocation 0 (mkSnooflake 0 0 255 7)) as (_ & H & _).
  - reflexivity.
  - reflexivity.
  - unfold is_uint16. cbn. lia.
  - unfold is_int64, minInt64, maxInt64. lia.
  - destruct H as (H1 & _ & _ & H2); [lia |]. split; assumption.
Defined.

(** ** Sleeping *)

Lemma wrap_int64_mod z : wrap_int64 z mod 2 ^ 64 = z mod 2 ^ 64.
Proof.
  unfold wrap_int64.
  rewrite Zminus_mod, Z.mod_mod by lia.
  rewrite <- Zminus_mod. f_equal. lia.
Qed.

Lemma wrap_int64_congr a b : a mod 2 ^ 64 = b mod 2 ^ 64 -> wrap_int64 a = wrap_int64 b.
Proof.
  intros H. unfold wrap_int64.
  rewrite (Z.add_mod a), (Z.add_mod b), H by lia. reflexivity.
Qed.

(** The int64 steps of [sleepTime] are one reduction of the exact
    difference. *)
Lemma sleepTime_wrap now overtime :
  sleepTime now overtime
  = wrap_int64 (overtime * 10 ^ 6 - Z.rem (UnixNano now) (10 ^ 6)).
Proof.
  unfold sleepTime, snooflakeTimeUnit, Millisecond, Nanosecond.
  rewrite !Z.mul_1_r.
  apply wrap_int64_congr.
  rewrite Zminus_mod, !wrap_int64_mod.
  rewrite <- (Z.mul_mod_idemp_l (wrap_int64 overtime)), wrap_int64_mod by lia.
  rewrite Z.mul_mod_idemp_l by lia.
  rewrite <- Zminus_mod. reflexivity.
Qed.

Lemma sleepTime_value now overtime :
  is_int64 now ->
  is_int64 (overtime * 10 ^ 6 - Z.rem now (10 ^ 6)) ->
  sleepTime now overtime = overtime * 10 ^ 6 - Z.rem now (10 ^ 6).
Proof.
  intros Hnow Hd. rewrite sleepTime_wrap. unfold UnixNano.
  rewrite (wrap_int64_id now) by assumption.
  apply wrap_int64_id. assumption.
Qed.

Lemma toSnooflakeTime_after_sleep now overtime :
  is_int64 now ->
  is_int64 (overtime * 10 ^ 6 - Z.rem now (10 ^ 6)) ->
  is_int64 (now + (overtime * 10 ^ 6 - Z.rem now (10 ^ 6))) ->
  Z.rem (UnixNano (addDuration now (sleepTime now overtime))) snooflakeTimeUnit = 0 /\
  toSnooflakeTime (addDuration now (sleepTime now overtime)) = toSnooflakeTime now + overtime.
Proof.
  intros Hnow Hd Hwake. rewrite sleepTime_value by assumption.
  unfold toSnooflakeTime, UnixNano, addDuration, snooflakeTimeUnit.
  rewrite !wrap_int64_id by assumption.
  clear Hnow Hd Hwake.
  change (10 ^ 6) with 1000000. split; quot_lia.
Qed.

(** X6: for an instant [now] within int64 nanoseconds, before or after
    1970, and an overtime of [k] units such that the duration
    [d = k ms - (now rem 1 ms)] and the instant [now + d] are within
    int64 nanoseconds, [sleepTime] is [d]: it is within 1 ms of [k]
    milliseconds (at most [k] ms from 1970 on, at least [k] ms before),
    and it ends on a millisecond boundary, where the clock reads [k]
    units more than now.  Outside these bounds the int64 arithmetic
    wraps. *)
Theorem sleepTime_ends_on_unit (now : Time) (overtime : Z) :
  is_int64 now ->
  is_int64 (overtime * 10 ^ 6 - Z.rem now (10 ^ 6)) ->
  is_int64 (now + (overtime * 10 ^ 6 - Z.rem now (10 ^ 6))) ->
  sleepTime now overtime = overtime * 10 ^ 6 - Z.rem now (10 ^ 6) /\
  (overtime - 1) * 10 ^ 6 < sleepTime now overtime < (overtime + 1) * 10 ^ 6 /\
  (0 <= now -> sleepTime now overtime <= overtime * 10 ^ 6) /\
  (now <= 0 -> overtime * 10 ^ 6 <= sleepTime now overtime) /\
  Z.rem (UnixNano (addDuration now (sleepTime now overtime))) snooflakeTimeUnit = 0 /\
  toSnooflakeTime (addDuration now (sleepTime now overtime)) = toSnooflakeTime now + overtime.
Proof.
  intros Hnow Hd Hwake.
  destruct (toSnooflakeTime_after_sleep now overtime Hnow Hd Hwake) as [Hrem Hunit].
  split; [apply sleepTime_value; assumption |].
  split; [| split; [| split; [| split; assumption]]];
    rewrite (sleepTime_value now overtime Hnow Hd);
    clear Hnow Hd Hwake Hrem Hunit; change (10 ^ 6) with 1000000.
  - quot_lia.
  - intros ?. quot_lia.
  - intros ?. quot_lia.
Qed.

Lemma sleepTime_ends_on_unit_witness :
  (sleepTime 1409529600000123456 2 = 2 * 10 ^ 6 - 123456 /\
   toSnooflakeTime (addDuration 1409529600000123456 (sleepTime 1409529600000123456 2))
   = 1409529600002) /\
  (sleepTime (-500) 1 = 10 ^ 6 + 500 /\
   toSnooflakeTime (addDuration (-500) (sleepTime (-500) 1)) = 1).
Proof.
  split.
  - destruct (sleepTime_ends_on_unit 1409529600000123456 2) as (H1 & _ & _ & _ & _ & H2).
    + vm_compute. split; discriminate.
    + vm_compute. split; discriminate.
    + vm_compute. split; discriminate.
    + split; [exact H1 | exact H2].
  - destruct (sleepTime_ends_on_unit (-500) 1) as (H1 & _ & _ & _ & _ & H2).
    + vm_compute. split; discriminate.
    + vm_compute. split; discriminate.
    + vm_compute. split; discriminate.
    + split; [exact H1 | exact H2].
Defined.

(** Beyond those bounds the duration wraps: an overtime of 2^62 units
    gives a negative sleep. *)
Example sleepTime_wraps : sleepTime 1409529600000123456 (2 ^ 62) = -123456.
Proof. reflexivity. Qed.

(** X7: an allocation sleeps only when the sequence wrapped in a unit
    the clock has not passed; the overtime is then
    [k = elapsedTime + 1 - current], at least 1.  With the clock read at
    one instant [now] for the whole call, [now] within int64 nanoseconds
    (before or after 1970), the start time that of a constructed
    generator (between -2^44 and 2^44), and the duration
    [d = k ms - (now rem 1 ms)] and the instant [now + d] within int64
    nanoseconds, the sleep is positive and ends where the clock reads
    exactly the elapsed time that the call borrowed. *)
Theorem sleep_reaches_borrowed_unit (now : Time) (sf : Snooflake) (overtime : Z) :
  let current := currentElapsedTime now (startTime sf) in
  let d := (elapsedTime sf + 1 - current) * 10 ^ 6 - Z.rem now (10 ^ 6) in
  is_int64 now -> - 2 ^ 44 < startTime sf < 2 ^ 44 ->
  is_int64 d -> is_int64 (now + d) ->
  snd (advance current sf) = Some overtime ->
  current <= elapsedTime sf /\
  sequence (fst (advance current sf)) = 0 /\
  overtime = elapsedTime sf + 1 - current /\ 1 <= overtime /\
  0 < sleepTime now overtime /\
  currentElapsedTime (addDuration now (sleepTime now overtime)) (startTime sf)
  = elapsedTime (fst (advance current sf)).
Proof.
  intros current d Hnow Hstart Hd Hwake.
  pose proof (currentElapsedTime_range now (startTime sf) Hstart) as Hcur.
  fold current in Hcur.
  advance_cases current sf; try discriminate.
  intros [= <-].
  assert (Hrem : - 10 ^ 6 < Z.rem now (10 ^ 6) < 10 ^ 6).
  { change (10 ^ 6) with 1000000. quot_lia. }
  assert (Hd' : is_int64 d) by exact Hd.
  unfold is_int64, minInt64, maxInt64 in Hd'. subst d.
  change (2 ^ 44) with 17592186044416 in *. change (2 ^ 45) with 35184372088832 in *.
  change (10 ^ 6) with 1000000 in *.
  change (2 ^ 63) with 9223372036854775808 in Hd'.
  assert (He1 : wrap_int64 (elapsedTime sf + 1) = elapsedTime sf + 1).
  { apply wrap_int64_id. unfold is_int64, minInt64, maxInt64.
    change (2 ^ 63) with 9223372036854775808. lia. }
  rewrite He1.
  assert (Hov : wrap_int64 (elapsedTime sf + 1 - current) = elapsedTime sf + 1 - current).
  { apply wrap_int64_id. unfold is_int64, minInt64, maxInt64.
    change (2 ^ 63) with 9223372036854775808. lia. }
  rewrite Hov.
  split; [assumption |]. split; [reflexivity |]. split; [reflexivity |].
  split; [lia |].
  destruct (toSnooflakeTime_after_sleep now (elapsedTime sf + 1 - current) Hnow Hd Hwake)
    as [_ Hunit].
  split.
  - rewrite (sleepTime_value now _ Hnow Hd).
    change (10 ^ 6) with 1000000. lia.
  - unfold currentElapsedTime at 1. rewrite Hunit.
    pose proof (toSnooflakeTime_range now) as Ht.
    change (2 ^ 44) with 17592186044416 in Ht.
    assert (Hc : current = toSnooflakeTime now - startTime sf).
    { unfold current, currentElapsedTime. apply wrap_int64_id.
      unfold is_int64, minInt64, maxInt64.
      change (2 ^ 63) with 9223372036854775808. lia. }
    rewrite wrap_int64_id.
    + lia.
    + unfold is_int64, minInt64, maxInt64.
      change (2 ^ 63) with 9223372036854775808. lia.
Qed.

Lemma sleep_reaches_borrowed_unit_witness :
  currentElapsedTime
    (addDuration 1409529600025123456 (sleepTime 1409529600025123456 1))
    1409529600000
  = 26 /\
  currentElapsedTime (addDuration (-500) (sleepTime (-500) 1)) 0 = 1.
Proof.
  split.
  - apply (sleep_reaches_borrowed_unit 1409529600025123456
             (mkSnooflake 1409529600000 25 255 7) 1).
    + vm_compute. split; discriminate.
    + cbn [startTime]. lia.
    + vm_compute. split; discriminate.
    + vm_compute. split; discriminate.
    + reflexivity.
  - apply (sleep_reaches_borrowed_unit (-500) (mkSnooflake 0 0 255 7) 1).
    + vm_compute. split; discriminate.
    + cbn [startTime]. lia.
    + vm_compute. split; discriminate.
    + vm_compute. split; discriminate.
    + reflexivity.
Defined.

(** ** What an allocation keeps *)

(** X8: unless the counter is at the largest int64, a call never moves
    the elapsed time backward, leaves it at or ahead of the reading, and
    at most one unit ahead of the later of the reading and the previous
    elapsed time; the sequence it leaves is below 2^8; the start time
    and the machine id are not changed. *)
Theorem nextID_time_bounds (current : Z) (sf : Snooflake) :
  is_int64 current -> minInt64 <= elapsedTime sf < maxInt64 ->
  let sf' := fst (nextID_from current sf) in
  elapsedTime sf <= elapsedTime sf' /\
  current <= elapsedTime sf' /\
  elapsedTime sf' <= Z.max current (elapsedTime sf + 1) /\
  0 <= sequence sf' < 2 ^ 8 /\
  startTime sf' = startTime sf /\ machineID sf' = machineID sf.
Proof.
  unfold is_int64, nextID_from. cbn [fst]. intros Hc He.
  pose proof (Z.mod_pos_bound (sequence sf + 1) (2 ^ 8) ltac:(lia)) as Hb.
  advance_cases current sf; try (repeat split; lia).
  rewrite wrap_int64_id by (unfold is_int64; lia).
  unfold minInt64, maxInt64 in *. repeat split; lia.
Qed.

Lemma nextID_time_bounds_witness :
  8 <= elapsedTime (fst (nextID_from 3 (mkSnooflake 0 8 255 1))) /\
  elapsedTime (fst (nextID_from 3 (mkSnooflake 0 8 255 1))) <= Z.max 3 (8 + 1).
Proof.
  destruct (nextID_time_bounds 3 (mkSnooflake 0 8 255 1)) as (H1 & _ & H3 & _).
  - unfold is_int64, minInt64, maxInt64. lia.
  - unfold minInt64, maxInt64. cbn [elapsedTime]. lia.
  - split; [exact H1 | exact H3].
Defined.

(** ** Batches *)

Lemma NextIDs_loop_no_error clock remaining : forall i ids sf,
  snd (snd (NextIDs_loop clock remaining i ids sf)) = None ->
  Forall succeeded (snd (run (readings clock i remaining) sf)).
Proof.
  induction remaining as [| r IH]; intros i ids sf Hnone; [constructor |].
  rewrite readings_succ, run_cons. cbn [snd].
  cbn [NextIDs_loop] in Hnone.
  destruct (nextID_from (clock i) sf) as [sf1 [id [e |]]]; [discriminate |].
  constructor; [reflexivity |]. cbn [fst]. eapply IH. exact Hnone.
Qed.

Lemma NextIDs_loop_error clock remaining : forall i ids sf e,
  snd (snd (NextIDs_loop clock remaining i ids sf)) = Some e ->
  e = errOverTimeLimit /\
  2 ^ 39 <= elapsedTime (fst (NextIDs_loop clock remaining i ids sf)).
Proof.
  induction remaining as [| r IH]; intros i ids sf e Herr; [discriminate |].
  cbn [NextIDs_loop] in *.
  destruct (nextID_from (clock i) sf) as [sf1 [id [e1 |]]] eqn:Hstep.
  - cbn [fst snd] in *. injection Herr as ->.
    assert (Hov : snd (snd (nextID_from (clock i) sf)) = Some e)
      by (rewrite Hstep; reflexivity).
    assert (Hsf : sf1 = fst (nextID_from (clock i) sf))
      by (rewrite Hstep; reflexivity).
    unfold nextID_from in Hov, Hsf. cbn [fst snd] in Hov, Hsf.
    rewrite toID_encode in Hov. rewrite Hsf.
    destruct (Z.leb_spec (2 ^ 39) (elapsedTime (fst (advance (clock i) sf))));
      cbn [snd] in Hov; [| discriminate].
    injection Hov as <-. auto.
  - eapply IH. exact Herr.
Qed.

Lemma run_live_increasing cs sf :
  is_uint16 (machineID sf) -> 0 <= elapsedTime sf < maxInt64 ->
  Forall succeeded (snd (run cs sf)) ->
  strictly_increasing (map fst (snd (run cs sf))) /\
  Forall (fun id => 0 <= id < 2 ^ 63) (map fst (snd (run cs sf))).
Proof.
  intros Hm He Hall. destruct cs as [| c cs].
  - cbn. split; constructor.
  - rewrite run_cons in *. cbn [snd map] in *.
    inversion Hall as [| ? ? Hok Hrest]; subst.
    destruct (nextID_success_fits c sf Hm He Hok) as (Hfit1 & _ & Hid).
    pose proof (packed_range _ Hfit1) as Hrange.
    destruct (run_increasing cs _ Hfit1 Hrest) as [Hlow Hsorted].
    rewrite Hid. split.
    + constructor; [assumption |].
      eapply Forall_impl; [exact Hlow |]. cbv beta. intros; lia.
    + constructor; [lia |].
      eapply Forall_impl; [exact Hlow |]. cbv beta. intros; lia.
Qed.

(** X9: a batch that returns no error holds [num] values, strictly
    increasing and each below 2^63, and leaves the generator in the
    state that [num] single allocations would. *)
Theorem NextIDs_success_increasing (maxAlloc : Z) (clock : nat -> Z) (num : Z)
    (sf sf' : Snooflake) (ids : list Z) :
  is_uint16 (machineID sf) -> 0 <= elapsedTime sf < maxInt64 ->
  NextIDs maxAlloc clock num sf = Some (sf', (ids, None)) ->
  0 <= num /\ 8 * num <= maxAlloc /\ length ids = Z.to_nat num /\
  strictly_increasing ids /\
  Forall (fun id => 0 <= id < 2 ^ 63) ids /\
  sf' = fst (run (readings clock 0 (Z.to_nat num)) sf).
Proof.
  intros Hm He. unfold NextIDs, makeslice_ok.
  destruct (Z.leb_spec 0 num) as [Hnum |]; [| discriminate].
  destruct (Z.leb_spec (8 * num) maxAlloc) as [Hfits |]; [| discriminate].
  cbn [andb]. intros [= Hloop].
  assert (Hall : Forall succeeded (snd (run (readings clock 0 (Z.to_nat num)) sf))).
  { apply (NextIDs_loop_no_error clock (Z.to_nat num) 0
             (replicate (Z.to_nat num) 0) sf).
    rewrite Hloop. reflexivity. }
  pose proof (NextIDs_loop_all_succeed clock (Z.to_nat num) [] sf Hall) as H.
  cbn [length app] in H. rewrite Hloop in H. injection H as -> ->.
  destruct (run_live_increasing _ sf Hm He Hall) as [Hinc Hrange].
  split; [lia |]. split; [assumption |]. split.
  - rewrite length_map, run_length, readings_length. reflexivity.
  - auto.
Qed.

Lemma NextIDs_success_increasing_witness :
  strictly_increasing [5 * 2 ^ 24 + 1; 5 * 2 ^ 24 + 2 ^ 16 + 1; 6 * 2 ^ 24 + 1].
Proof.
  apply (NextIDs_success_increasing maxAlloc_linux64
           (fun i : nat => match i with 2%nat => 6 | _ => 5 end) 3
           (mkSnooflake 0 0 255 1)
           (mkSnooflake 0 6 0 1)).
  - unfold is_uint16. cbn. lia.
  - unfold maxInt64. cbn. lia.
  - reflexivity.
Defined.

(** X10: [make] panics in a batch, which then has no result, exactly
    when the count is negative or 8 times the count is more than the
    largest allocation of the platform; the only error a batch returns is the
    time-overflow error, only for a positive count, and the generator is
    then left with an elapsed time of at least 2^39. *)
Theorem NextIDs_error (maxAlloc : Z) (clock : nat -> Z) (num : Z) (sf : Snooflake) :
  (NextIDs maxAlloc clock num sf = None <-> num < 0 \/ maxAlloc < 8 * num) /\
  (forall sf' ids e,
     NextIDs maxAlloc clock num sf = Some (sf', (ids, Some e)) ->
     e = errOverTimeLimit /\ 2 ^ 39 <= elapsedTime sf' /\ 0 < num).
Proof.
  unfold NextIDs, makeslice_ok.
  destruct (Z.leb_spec 0 num) as [Hnum | Hneg];
    [destruct (Z.leb_spec (8 * num) maxAlloc) as [Hfits | Hbig] |]; cbn [andb].
  - split; [split; [discriminate | lia] |].
    intros sf' ids e [= Hloop].
    destruct (NextIDs_loop_error clock (Z.to_nat num) 0
                (replicate (Z.to_nat num) 0) sf e) as [He Hov].
    { rewrite Hloop. reflexivity. }
    rewrite Hloop in Hov. cbn [fst] in Hov.
    split; [assumption |]. split; [assumption |].
    destruct (Z.to_nat num) eqn:Hn; [discriminate | lia].
  - split; [split; auto |]. discriminate.
  - split; [split; auto |]. discriminate.
Qed.

Lemma NextIDs_error_witness :
  NextIDs maxAlloc_linux64 (fun _ => 5) (2 ^ 62) (mkSnooflake 0 0 255 1) = None /\
  NextIDs maxAlloc_linux64 (fun _ => 5) (-1) (mkSnooflake 0 0 255 1) = None.
Proof.
  split.
  - apply (NextIDs_error maxAlloc_linux64 (fun _ => 5) (2 ^ 62) (mkSnooflake 0 0 255 1)).
    right. vm_compute. reflexivity.
  - apply (NextIDs_error maxAlloc_linux64 (fun _ => 5) (-1) (mkSnooflake 0 0 255 1)).
    left. lia.
Defined.

(** ** Construction with the default machine id *)

Lemma lower16BitPrivateIP_first addrs :
  Forall wf_Addr addrs ->
  lower16BitPrivateIP (addrs, None) =
  match first_private addrs with
  | Some ip => (byteAt ip 2 * 2 ^ 8 + byteAt ip 3, None)
  | None => (0, Some errNoPrivateIP)
  end.
Proof.
  intros Hwf. unfold lower16BitPrivateIP, privateIPv4. cbn [fst snd].
  rewrite privateIPv4_loop_first.
  destruct (first_private addrs) as [ip |] eqn:Hfirst; [| reflexivity].
  destruct (first_private_spec addrs ip Hwf Hfirst)
    as (a & b & c & d & -> & Ha & Hb & Hc & Hd & Hp).
  unfold byteAt. cbn [lookup list_lookup].
  rewrite lower16_value by assumption.
  rewrite Z.shiftl_mul_pow2 by lia. unfold is_byte in Hd.
  rewrite lor_mul_pow2_add by lia. reflexivity.
Qed.

(** X11: when no machine-id provider is configured, construction uses
    the interface addresses: it returns nil when they cannot be read or
    hold no private IPv4 address; otherwise, unless the start time is in
    the future or the validator rejects the id, the generator's machine
    id is [octet3 * 2^8 + octet4] of the first private IPv4 address. *)
Theorem NewSnooflake_default_machineID (now : Time) (addrs : list Addr)
    (st : Settings) :
  MachineID st = None -> Forall wf_Addr addrs ->
  (forall e, NewSnooflake now (addrs, Some e) st = None) /\
  (first_private addrs = None -> NewSnooflake now (addrs, None) st = None) /\
  (forall ip, first_private addrs = Some ip ->
     let mid := byteAt ip 2 * 2 ^ 8 + byteAt ip 3 in
     is_uint16 mid /\
     (NewSnooflake now (addrs, None) st = None <->
        now < StartTime st \/
        exists check, CheckMachineID st = Some check /\ check mid = false) /\
     (forall sf, NewSnooflake now (addrs, None) st = Some sf -> machineID sf = mid)).
Proof.
  intros Hnil Hwf.
  assert (Hres : forall ifaddrs, resolved_machineID ifaddrs st = lower16BitPrivateIP ifaddrs).
  { intros ifaddrs. unfold resolved_machineID. rewrite Hnil. reflexivity. }
  split; [| split].
  - intros e. apply NewSnooflake_nil_iff. right. left.
    rewrite Hres. cbn. discriminate.
  - intros Hnone. apply NewSnooflake_nil_iff. right. left.
    rewrite Hres, (lower16BitPrivateIP_first addrs Hwf), Hnone. cbn. discriminate.
  - intros ip Hfirst mid.
    assert (Hl : lower16BitPrivateIP (addrs, None) = (mid, None)).
    { rewrite (lower16BitPrivateIP_first addrs Hwf), Hfirst. reflexivity. }
    split; [| split].
    + pose proof (lower16BitPrivateIP_uint16 (addrs, None)) as H.
      rewrite Hl in H. exact H.
    + rewrite NewSnooflake_nil_iff, Hres, Hl. cbn [fst snd].
      split; [intros [H | [H | H]] | intros [H | H]]; auto. contradiction.
    + intros sf Hsf.
      destruct (NewSnooflake_some now (addrs, None) st sf Hsf) as (_ & _ & Hm & _).
      rewrite Hm, Hres, Hl. reflexivity.
Qed.

Lemma NewSnooflake_default_machineID_witness :
  NewSnooflake (Date 2024 1 1) ([IPNet [8; 8; 8; 8] []; IPNet [2; 3] []], None)
    (mkSettings zeroTime None None) = None.
Proof.
  apply (NewSnooflake_default_machineID (Date 2024 1 1)
           [IPNet [8; 8; 8; 8] []; IPNet [2; 3] []] (mkSettings zeroTime None None)).
  - reflexivity.
  - repeat constructor; unfold is_byte; lia.
  - reflexivity.
Defined.

(** ** Elapsed time and real time *)

(** X12: for a start time [T0] at or after the Unix epoch and a clock
    at or after [T0], the elapsed-time reading is the number of whole
    milliseconds between them, or one more (never less, and exact when
    [T0] is a whole number of milliseconds); it is not negative, and it
    never decreases while the clock does not go backward. *)
Theorem currentElapsedTime_whole_units (T0 now later : Time) :
  0 <= T0 -> T0 <= now -> now <= later -> later <= maxInt64 ->
  let start := toSnooflakeTime T0 in
  (now - T0) / 10 ^ 6 <= currentElapsedTime now start <= (now - T0) / 10 ^ 6 + 1 /\
  (T0 mod 10 ^ 6 = 0 -> currentElapsedTime now start = (now - T0) / 10 ^ 6) /\
  0 <= currentElapsedTime now start /\
  currentElapsedTime now start <= currentElapsedTime later start.
Proof.
  intros H0 Hnow Hlater Hmax start. subst start.
  unfold currentElapsedTime, toSnooflakeTime, UnixNano, snooflakeTimeUnit, maxInt64 in *.
  rewrite !(wrap_int64_id T0), !(wrap_int64_id now), !(wrap_int64_id later)
    by (unfold is_int64, minInt64, maxInt64; lia).
  rewrite !Z.quot_div_nonneg by lia.
  change (10 ^ 6) with 1000000.
  change (2 ^ 63) with 9223372036854775808 in Hmax.
  assert (Hw : forall t, 0 <= t <= 9223372036854775807 ->
                 wrap_int64 (t / 1000000 - T0 / 1000000) = t / 1000000 - T0 / 1000000).
  { intros t Ht. apply wrap_int64_id. unfold is_int64, minInt64, maxInt64.
    change (2 ^ 63) with 9223372036854775808. div_lia. }
  rewrite !Hw by lia.
  clear Hw. split; [split; div_lia |].
  split; [intros Hal; div_lia |].
  split; div_lia.
Qed.

Lemma currentElapsedTime_whole_units_witness :
  currentElapsedTime (Date 2014 9 1 + 2500000) (toSnooflakeTime (Date 2014 9 1)) = 2.
Proof.
  destruct (currentElapsedTime_whole_units (Date 2014 9 1) (Date 2014 9 1 + 2500000)
              (Date 2014 9 1 + 2500000)) as (_ & H & _).
  - vm_compute. discriminate.
  - vm_compute. discriminate.
  - lia.
  - vm_compute. discriminate.
  - apply H. reflexivity.
Defined.

(** ** The address that discovery selects *)

Lemma privateIPv4_loop_selected addrs : forall ip,
  privateIPv4_loop addrs = (ip, None) ->
  exists ip0 mask,
    In (IPNet ip0 mask) addrs /\ To4 ip0 = ip /\ IsLoopback ip0 = false /\
    isPrivateIPv4 ip = true.
Proof.
  induction addrs as [| a addrs IH]; intros ip Hsel; [discriminate |].
  cbn [privateIPv4_loop] in Hsel.
  assert (Hrest : privateIPv4_loop addrs = (ip, None) ->
            exists ip0 mask, In (IPNet ip0 mask) (a :: addrs) /\ To4 ip0 = ip /\
                             IsLoopback ip0 = false /\ isPrivateIPv4 ip = true).
  { intros H. destruct (IH ip H) as (ip0 & mask & Hin & Hrestn).
    exists ip0, mask. split; [right; exact Hin | exact Hrestn]. }
  destruct a as [ip0 mask | ip0]; [| auto].
  destruct (IsLoopback ip0) eqn:Hloop; [auto |].
  destruct (isPrivateIPv4 (To4 ip0)) eqn:Hpriv; [| auto].
  injection Hsel as <-. exists ip0, mask.
  split; [left; reflexivity | auto].
Qed.

Lemma privateIPv4_loop_error addrs : forall ip e,
  privateIPv4_loop addrs = (ip, Some e) -> ip = [] /\ e = errNoPrivateIP.
Proof.
  induction addrs as [| a addrs IH]; intros ip e Hsel.
  - injection Hsel as <- <-. auto.
  - cbn [privateIPv4_loop] in Hsel.
    destruct a as [ip0 mask | ip0]; [| eauto].
    destruct (IsLoopback ip0); [eauto |].
    destruct (isPrivateIPv4 (To4 ip0)); [discriminate | eauto].
Qed.

(** X13: an address returned by [privateIPv4] has four bytes, is
    private, and is the IPv4 form of an [*IPNet] interface address that
    is not a loopback address; addresses of other kinds are never
    returned.  When no address is returned, the result is the nil
    address with either the error of [net.InterfaceAddrs] or the
    no-private-address error. *)
Theorem privateIPv4_selected (addrs : list Addr) (err : option error) (ip : IP) :
  (privateIPv4 (addrs, err) = (ip, None) ->
     err = None /\ length ip = 4%nat /\ isPrivateIPv4 ip = true /\
     exists ip0 mask,
       In (IPNet ip0 mask) addrs /\ To4 ip0 = ip /\ IsLoopback ip0 = false) /\
  (forall e, privateIPv4 (addrs, err) = (ip, Some e) ->
     ip = [] /\ (err = Some e \/ err = None /\ e = errNoPrivateIP)).
Proof.
  unfold privateIPv4. cbn [fst snd]. split.
  - destruct err as [e |]; [discriminate |]. intros Hsel.
    destruct (privateIPv4_loop_selected addrs ip Hsel)
      as (ip0 & mask & Hin & H4 & Hloop & Hpriv).
    split; [reflexivity |]. split.
    + destruct (To4_length ip0) as [Hnil | Hlen]; rewrite H4 in *; [| assumption].
      rewrite Hnil, isPrivateIPv4_nil in Hpriv. discriminate.
    + split; [assumption |]. exists ip0, mask. auto.
  - intros e. destruct err as [e0 |].
    + intros [= <- <-]. auto.
    + intros Hsel. destruct (privateIPv4_loop_error addrs ip e Hsel) as [-> ->].
      auto.
Qed.

Lemma privateIPv4_selected_witness :
  length (fst (privateIPv4
                 ([OtherAddr [10; 1; 1; 1];
                   IPNet [0;0;0;0;0;0;0;0;0;0;255;255;192;168;7;9] []], None)))
  = 4%nat.
Proof.
  apply (privateIPv4_selected
           [OtherAddr [10; 1; 1; 1];
            IPNet [0;0;0;0;0;0;0;0;0;0;255;255;192;168;7;9] []] None
           [192; 168; 7; 9]).
  reflexivity.
Defined.

(** ** The life of a generator *)

Lemma run_take cs : forall k sf,
  snd (run (take k cs) sf) = take k (snd (run cs sf)).
Proof.
  induction cs as [| c cs IH]; intros k sf.
  - rewrite take_nil. cbn [run snd]. rewrite take_nil. reflexivity.
  - destruct k as [| k]; [reflexivity |].
    cbn [take]. rewrite !run_cons. cbn [snd take]. rewrite IH. reflexivity.
Qed.

Lemma toID_dichotomy sf : succeeded (toID sf) \/ overflowed (toID sf).
Proof.
  rewrite toID_encode. unfold succeeded, overflowed.
  destruct (2 ^ 39 <=? elapsedTime sf); cbn [snd]; auto.
Qed.

(** The results of a run are successes followed by failures only. *)
Lemma run_success_prefix cs : forall sf B,
  minInt64 <= elapsedTime sf <= B ->
  Forall (fun c => c <= B) cs ->
  B + Z.of_nat (length cs) <= maxInt64 ->
  exists k : nat,
    Forall succeeded (take k (snd (run cs sf))) /\
    Forall overflowed (drop k (snd (run cs sf))).
Proof.
  induction cs as [| c cs IH]; intros sf B He Hcs Hlen.
  - exists 0%nat. cbn. split; constructor.
  - inversion Hcs as [| ? ? Hc Hrest]; subst. cbn [length] in Hlen.
    assert (Hrest1 : Forall (fun c => c <= B + 1) cs).
    { eapply Forall_impl; [exact Hrest |]. cbv beta. intros; lia. }
    assert (Hstep : minInt64 <= elapsedTime (fst (nextID_from c sf)) <= B + 1).
    { unfold nextID_from. cbn [fst]. unfold minInt64, maxInt64 in *.
      advance_cases c sf; try lia.
      rewrite wrap_int64_id; [lia |].
      unfold is_int64, minInt64, maxInt64. lia. }
    rewrite run_cons. cbn [snd].
    destruct (toID_dichotomy (fst (advance c sf))) as [Hok | Hov].
    + destruct (IH (fst (nextID_from c sf)) (B + 1) Hstep Hrest1) as (k & Hpre & Hsuf);
        [lia |].
      exists (S k). cbn [take drop]. split; [constructor |]; assumption.
    + exists 0%nat. cbn [take drop]. split; [constructor |].
      constructor; [exact Hov |].
      apply (run_overflow_stays cs _ (B + 1)); try lia; try assumption.
      apply toID_overflowed. exact Hov.
Qed.

(** X14: for a generator made by [NewSnooflake] and calls of [NextID] at
    any instants (fewer than 2^62 of them), the results are a run of
    successes followed by failures only: some number [k] of calls
    succeed, with strictly increasing values, and every call after them
    fails with the time-overflow error. *)
Theorem constructed_generator_life (now0 : Time) (ifaddrs : list Addr * option error)
    (st : Settings) (sf : Snooflake) (nows : list Time) :
  wf_Settings st -> NewSnooflake now0 ifaddrs st = Some sf ->
  Z.of_nat (length nows) < 2 ^ 62 ->
  exists k : nat,
    Forall succeeded (take k (snd (run_at nows sf))) /\
    Forall overflowed (drop k (snd (run_at nows sf))) /\
    strictly_increasing (map fst (take k (snd (run_at nows sf)))).
Proof.
  intros Hwf Hnew Hlen.
  destruct (NewSnooflake_ready now0 ifaddrs st sf Hwf Hnew) as (Hm & He & _ & Hstart).
  rewrite run_at_run.
  set (cs := map (fun now => currentElapsedTime now (startTime sf)) nows).
  assert (Hcs : Forall (fun c => c <= 2 ^ 62) cs).
  { apply List.Forall_forall. intros c Hc. apply List.in_map_iff in Hc.
    destruct Hc as (now & <- & _).
    pose proof (currentElapsedTime_range now (startTime sf) Hstart) as H.
    change (2 ^ 45) with 35184372088832 in H.
    change (2 ^ 62) with 4611686018427387904. lia. }
  assert (Hlencs : length cs = length nows) by apply length_map.
  destruct (run_success_prefix cs sf (2 ^ 62)) as (k & Hpre & Hsuf).
  - rewrite He. unfold minInt64. lia.
  - exact Hcs.
  - rewrite Hlencs. unfold maxInt64.
    change (2 ^ 62) with 4611686018427387904 in *.
    change (2 ^ 63) with 9223372036854775808. lia.
  - exists k. split; [assumption |]. split; [assumption |].
    rewrite <- run_take in *.
    apply run_live_increasing; [assumption | | assumption].
    rewrite He. unfold maxInt64. lia.
Qed.

Lemma constructed_generator_life_witness :
  exists k : nat,
    Forall succeeded
      (take k (snd (run_at [Date 2020 1 1; Date 2020 1 1; Date 2040 1 1; Date 2020 1 1]
                      (mkSnooflake 1409529600000 0 255 7)))) /\
    Forall overflowed
      (drop k (snd (run_at [Date 2020 1 1; Date 2020 1 1; Date 2040 1 1; Date 2020 1 1]
                      (mkSnooflake 1409529600000 0 255 7)))).
Proof.
  destruct (constructed_generator_life (Date 2014 9 1) ([], None)
              (mkSettings zeroTime (Some (7, None)) None)
              (mkSnooflake 1409529600000 0 255 7)
              [Date 2020 1 1; Date 2020 1 1; Date 2040 1 1; Date 2020 1 1])
    as (k & Hpre & Hsuf & _).
  - unfold wf_Settings, is_uint16. cbn. lia.
  - reflexivity.
  - cbn. lia.
  - exists k. split; assumption.
Defined.
